(** * The Google Gemini service adapter of CopilotKit

    A shallow embedding of
    [CopilotKit/packages/backend/src/lib/google-genai-adapter.ts]:
    the message transcoder ([transformMessage], [transformMessages]), the
    tool-schema transcoder ([transformTool], [transformTools]), the
    streaming bridge (the [start] callback of the returned stream) and the
    facade [getResponse].

    Conventions of the embedding.
    - JavaScript strings are Rocq strings; the string built-ins the adapter
      calls ([trim], [toUpperCase], [replace]) are modelled on ASCII text.
    - Values of type [any] that the adapter walks (tool parameters, the
      arguments of a function call) are [json] trees; an object is an
      association list in property-enumeration order.
    - An exception is a value of type [error]; code that can throw returns
      a [result].  Code that also changes an object the caller can see (the
      array of messages, the stream controller) is a function of the state
      [M].
    - The stream that [getResponse] returns is described by what its
      producer has written to it once it has run: the records in order and
      whether the stream ended closed or errored.
    - [JSON.parse] and [JSON.stringify] belong to the host language and are
      section variables: every statement holds for any implementation. *)

From Stdlib Require Import String Ascii List Bool Arith ZArith Lia.
From Stdlib Require Import DecimalString.
From Stdlib Require DecimalFacts DecimalNat Finite.
Import ListNotations.
Local Open Scope string_scope.
Local Open Scope list_scope.

Set Implicit Arguments.

(** ** Exceptions *)

Inductive error : Type :=
| InvalidMessageRole   (* [new Error("Invalid message role")] *)
| SyntaxError          (* thrown by [JSON.parse] *)
| TypeError            (* property read on [null]/[undefined], call of a non-function *)
| UpstreamError.       (* rejection coming from the generative-model client *)

Inductive result (A : Type) : Type :=
| Ok (a : A)
| Err (e : error).
Arguments Ok {A} a.
Arguments Err {A} e.

Definition rbind {A B} (r : result A) (k : A -> result B) : result B :=
  match r with
  | Ok a => k a
  | Err e => Err e
  end.

Notation "'try!' x <- r ; k" := (rbind r (fun x => k))
  (at level 60, x name, r at next level, right associativity).

Section MapResult.
Context {A B : Type} (f : A -> result B).

  (** [xs.map(f)] where [f] may throw: the first exception aborts the map. *)
Fixpoint map_result (xs : list A) : result (list B) :=
    match xs with
    | [] => Ok []
    | x :: xs' =>
        try! y <- f x;
        try! ys <- map_result xs';
        Ok (y :: ys)
    end.
End MapResult.

(** ** String built-ins *)

Definition newline : string := String (ascii_of_nat 10) EmptyString.

(** The pattern of both replacements in the adapter.  The source writes the
    string literal with four backslashes and the regular expression
    [/\\\\n/g]; each denotes the three characters backslash, backslash, n.
    Rocq strings have no escape sequences, so the literal below is exactly
    those three characters. *)
Definition escaped_newline : string := "\\n".

(** The two-character sequence backslash, n. *)
Definition backslash_n : string := "\n".

(** Tab, line feed, vertical tab, form feed, carriage return and space:
    the white space and line terminators of ASCII. *)
Definition is_whitespace (c : ascii) : bool :=
  match nat_of_ascii c with
  | 9 | 10 | 11 | 12 | 13 | 32 => true
  | _ => false
  end.

Fixpoint trimStart (s : string) : string :=
  match s with
  | EmptyString => EmptyString
  | String c s' => if is_whitespace c then trimStart s' else s
  end.

Fixpoint trimEnd (s : string) : string :=
  match s with
  | EmptyString => EmptyString
  | String c s' =>
      match trimEnd s' with
      | EmptyString => if is_whitespace c then EmptyString else String c EmptyString
      | r => String c r
      end
  end.

(** [String.prototype.trim]. *)
Definition trim (s : string) : string := trimEnd (trimStart s).

Definition upper_ascii (c : ascii) : ascii :=
  let n := nat_of_ascii c in
  if Nat.leb 97 n && Nat.leb n 122 then ascii_of_nat (n - 32) else c.

(** [String.prototype.toUpperCase]. *)
Fixpoint toUpperCase (s : string) : string :=
  match s with
  | EmptyString => EmptyString
  | String c s' => String (upper_ascii c) (toUpperCase s')
  end.

Fixpoint drop (n : nat) (s : string) : string :=
  match n, s with
  | 0, _ => s
  | S _, EmptyString => EmptyString
  | S k, String _ s' => drop k s'
  end.

(** [s.replace(pat, rep)] with a string pattern: only the leftmost
    occurrence is replaced. *)
Fixpoint replace (pat rep s : string) : string :=
  if prefix pat s then (rep ++ drop (String.length pat) s)%string
  else match s with
       | EmptyString => EmptyString
       | String c s' => String c (replace pat rep s')
       end.

(** [s.replace(/pat/g, rep)] for a pattern that matches the literal,
    non-empty text [pat]: every match, left to right, without overlap.
    [skip] counts the characters of a match still to be consumed. *)
Fixpoint replace_global (pat rep : string) (skip : nat) (s : string) : string :=
  match s with
  | EmptyString => EmptyString
  | String c s' =>
      match skip with
      | S k => replace_global pat rep k s'
      | 0 =>
          if prefix pat s
          then (rep ++ replace_global pat rep (String.length pat - 1) s')%string
          else String c (replace_global pat rep 0 s')
      end
  end.

(** [ix + ""] for an array index. *)
Definition string_of_index (ix : nat) : string :=
  NilZero.string_of_uint (Nat.to_uint ix).

(** ** JSON-like values *)

Set Warnings "-register-all".

(** Numbers are carried around by the adapter and never computed with; the
    only thing it observes of one is whether it is zero (truthiness). *)
Inductive json : Type :=
| JNull
| JBool (b : bool)
| JNum (z : Z)
| JStr (s : string)
| JArr (items : list json)
| JObj (fields : list (string * json)).

(** Property read [v[key]] on the fields of an object: [None] is
    [undefined]. *)
Fixpoint assoc (key : string) (fields : list (string * json)) : option json :=
  match fields with
  | [] => None
  | (k, v) :: rest => if String.eqb k key then Some v else assoc key rest
  end.

Section UpdateField.
Variable f : json -> result json.

  (** [v[key] = f(v[key])] on the fields of [v], when [v] has the field. *)
Fixpoint update_field (key : string) (fields : list (string * json))
    : result (list (string * json)) :=
    match fields with
    | [] => Ok []
    | (k, x) :: rest =>
        if String.eqb k key then
          try! x' <- f x;
          Ok ((k, x') :: rest)
        else
          try! rest' <- update_field key rest;
          Ok ((k, x) :: rest')
    end.
End UpdateField.

(** Truthiness of a value read from a property. *)
Definition truthy (o : option json) : bool :=
  match o with
  | None => false
  | Some JNull => false
  | Some (JBool b) => b
  | Some (JNum z) => negb (Z.eqb z 0)
  | Some (JStr s) => negb (String.eqb s "")
  | Some (JArr _) => true
  | Some (JObj _) => true
  end.

(** ** Messages and native contents *)

Module FunctionCall.
Record t : Type := mk { name : option string; arguments : option string }.
End FunctionCall.

Module Message.
Record t : Type := mk {
    role : string;
    content : string;
    name : option string;
    function_call : option FunctionCall.t
  }.
End Message.

Inductive Part : Type :=
| text (t : string)
| functionCall (name : option string) (args : json)
| functionResponse (name : option string) (response_name : option string)
                   (response_content : json).

Module Content.
Record t : Type := mk { role : string; parts : list Part }.
End Content.

(** The [function] field of an incoming tool, and an entry of the native
    [functionDeclarations]: both are [{name, description, parameters}]. *)
Module FunctionDeclaration.
Record t : Type := mk { name : string; description : string; parameters : json }.
End FunctionDeclaration.

Module ToolInput.
Record t : Type := mk { function : FunctionDeclaration.t }.
End ToolInput.

Module Tool.
Record t : Type := mk { functionDeclarations : list FunctionDeclaration.t }.
End Tool.

(** ** Chat-completion chunks and the outbound stream *)

Module ToolCallFunction.
Record t : Type := mk { name : string; arguments : string }.
End ToolCallFunction.

Module ToolCall.
Record t : Type := mk { index : nat; id : string; function : ToolCallFunction.t }.
End ToolCall.

Module Delta.
Record t : Type := mk {
    role : string;
    content : string;
    tool_calls : option (list ToolCall.t)     (* [None]: the field is absent *)
  }.
End Delta.

Module Choice.
Record t : Type := mk { delta : Delta.t }.
End Choice.

Module ChatCompletionChunk.
Record t : Type := mk { choices : list Choice.t }.
End ChatCompletionChunk.

(** What has been written to the stream: a chunk or the end marker. *)
Inductive StreamRecord : Type :=
| ChunkRecord (chunk : ChatCompletionChunk.t)
| EndRecord.

Inductive StreamState : Type :=
| Readable
| Closed
| Errored (e : error).

(** The controller of the [ReadableStream] with the stream it feeds:
    [queue] is the log of the records the producer has enqueued, oldest
    first, and [state] the state of the stream.  The log says what was
    written, not what a reader still gets: a stream that ends errored drops
    the records that were not read before. *)
Module Controller.
Record t : Type := mk { queue : list StreamRecord; state : StreamState }.
End Controller.

(** ** The generative-model client *)

(** A function call reported by the aggregated response. *)
Module ModelFunctionCall.
Record t : Type := mk { name : string; args : json }.
End ModelFunctionCall.

(** The value of [chat.sendMessageStream(parts)].  [stream] lists, in
    order, the outcome of each step of [for await (const chunk of
    result.stream)] followed by [chunk.text()]: the text, or the exception
    that ends the iteration.  [response] is the outcome of
    [(await result.response).functionCalls()], [Ok None] being
    [undefined]. *)
Module StreamResult.
Record t : Type := mk {
    stream : list (result string);
    response : result (option (list ModelFunctionCall.t))
  }.
End StreamResult.

Module StartChatParams.
Record t : Type := mk {
    history : list Content.t;
    systemInstruction : option Content.t;     (* [None]: the field is absent *)
    tools : list Tool.t
  }.
End StartChatParams.

(** The configured model: its identifier and the behaviour of the remote
    service for a session and a message. *)
Module GenerativeModel.
Record t : Type := mk {
    model : string;
    service : StartChatParams.t -> list Part -> result StreamResult.t
  }.
End GenerativeModel.

Inductive ClientCall : Type :=
| StartChat (params : StartChatParams.t)
| SendMessageStream (parts : list Part).

(** What [getResponse] can change: the array [forwardedProps.messages],
    which the caller still holds, and the calls made on the client. *)
Module World.
Record t : Type := mk { messages : list Message.t; calls : list ClientCall }.
End World.

Module CopilotKitResponse.
Record t : Type := mk { stream : Controller.t }.
End CopilotKitResponse.

(** ** State and exceptions *)

(** A computation on a state [S] that may throw; the state reached when
    the exception is thrown is kept. *)
Definition M (S A : Type) : Type := S -> S * result A.

Definition ret {S A} (a : A) : M S A := fun s => (s, Ok a).

Definition bind {S A B} (m : M S A) (k : A -> M S B) : M S B :=
  fun s =>
    match m s with
    | (s', Ok a) => k a s'
    | (s', Err e) => (s', Err e)
    end.

Definition lift {S A} (r : result A) : M S A := fun s => (s, r).

Notation "'let!' x <- m ; k" := (bind m (fun x => k))
  (at level 60, x name, m at next level, right associativity).
Notation "m ;; k" := (bind m (fun _ => k))
  (at level 61, right associativity).

Section Adapter.

(** [JSON.parse]: [None] when it throws a [SyntaxError]. *)
Variable JSON_parse : string -> option json.
(** [JSON.stringify]. *)
Variable JSON_stringify : json -> string.

(** [JSON.parse(s)] where [s] may be [undefined]: [undefined] is converted
    to the text [undefined], which is not JSON. *)
Definition JSON_parse_arg (s : option string) : result json :=
  match s with
  | None => Err SyntaxError
  | Some str =>
      match JSON_parse str with
      | Some v => Ok v
      | None => Err SyntaxError
      end
  end.

Definition tryParseJson (str : string) : json :=
  if String.eqb str "" then JStr ""
  else match JSON_parse str with
       | Some v => v
       | None => JStr str
       end.

(** [replaceNewlinesInObject(obj)].  For an object the loop tests
    [obj.hasOwnProperty(key)] at each key, the first one included: when the
    object has a field of its own named [hasOwnProperty], that field, which
    is no function, is what gets called, and the call throws.  The
    assignment [newObj[key] = ...] for the key [__proto__] goes to the
    prototype setter and gives [newObj] no field: the value is normalized,
    which may throw, and is then absent from the result. *)
Fixpoint replaceNewlinesInObject (obj : json) : result json :=
  match obj with
  | JStr s => Ok (JStr (replace_global escaped_newline newline 0 s))
  | JArr items =>
      try! items' <- map_result replaceNewlinesInObject items;
      Ok (JArr items')
  | JObj fields =>
      match assoc "hasOwnProperty" fields with
      | Some _ => Err TypeError
      | None =>
          try! fields' <-
            map_result
              (fun kv => try! v <- replaceNewlinesInObject (snd kv); Ok (fst kv, v))
              fields;
          Ok (JObj (filter (fun kv => negb (String.eqb (fst kv) "__proto__")) fields'))
      end
  | _ => Ok obj
  end.

Definition system_prefix : string :=
  "THE FOLLOWING MESSAGE IS NOT A USER MESSAGE. IT IS A SYSTEM MESSAGE: ".

Definition transformMessage (message : Message.t) : result Content.t :=
  if String.eqb (Message.role message) "user" then
    Ok (Content.mk "user" [text (Message.content message)])
  else if String.eqb (Message.role message) "assistant" then
    match Message.function_call message with
    | Some fc =>
        try! args <- JSON_parse_arg (FunctionCall.arguments fc);
        Ok (Content.mk "model" [functionCall (FunctionCall.name fc) args])
    | None =>
        Ok (Content.mk "model"
              [text (replace escaped_newline newline (Message.content message))])
    end
  else if String.eqb (Message.role message) "function" then
    Ok (Content.mk "function"
          [functionResponse (Message.name message) (Message.name message)
             (tryParseJson (Message.content message))])
  else if String.eqb (Message.role message) "system" then
    Ok (Content.mk "user" [text (system_prefix ++ Message.content message)%string])
  else Err InvalidMessageRole.

Definition recognized_role (r : string) : bool :=
  String.eqb r "user" || String.eqb r "assistant"
  || String.eqb r "function" || String.eqb r "system".

Definition transformMessages (messages : list Message.t) : result (list Content.t) :=
  map_result transformMessage
    (filter (fun m => recognized_role (Message.role m)) messages).

(** ** Tool declarations *)

Definition transformProperties_type (t : json) : result json :=
  if truthy (Some t) then
    match t with
    | JStr s => Ok (JStr (toUpperCase s))
    | _ => Err TypeError          (* [toUpperCase] is not a function *)
    end
  else Ok t.

(** The closure [transformProperties] of [transformTool].  It updates its
    argument in place; the embedding returns the updated tree.

    [for (const key in props)] enumerates the fields of an object and the
    indices of an array; over a string it enumerates one-character strings,
    which have neither a [type] nor a [properties], and over the other
    values nothing.  For each enumerated value [v = props[key]]: reading
    [v.type] throws when [v] is [null]; a truthy [v.type] is replaced by its
    upper-casing; a truthy [v.properties] is walked recursively.  The two
    updates touch different fields of [v].  The recursion is structural:
    the walk goes into the fields of [v] as they were given, the
    upper-casing being tried before it, so that its exception comes first
    as in the source, and applied after it. *)
Fixpoint transformProperties (props : json) : result json :=
  let visit (v : json) : result json :=
    match v with
    | JNull => Err TypeError
    | JObj fields =>
        match update_field transformProperties_type "type" fields with
        | Err e => Err e
        | Ok _ =>
            try! fields1 <-
              update_field
                (fun p => if truthy (Some p) then transformProperties p else Ok p)
                "properties" fields;
            try! fields2 <- update_field transformProperties_type "type" fields1;
            Ok (JObj fields2)
        end
    | _ => Ok v
    end in
  match props with
  | JObj fields =>
      try! fields' <-
        map_result (fun kv => try! v' <- visit (snd kv); Ok (fst kv, v')) fields;
      Ok (JObj fields')
  | JArr items =>
      try! items' <- map_result visit items;
      Ok (JArr items')
  | _ => Ok props
  end.

(** The body of the loop above for one value [v = props[key]], in the
    order of the source, [walk] being the recursive call:
    [transformProperties_eq] shows that the fixpoint computes it. *)
Definition transformProperties_step (walk : json -> result json) (v : json)
  : result json :=
  match v with
  | JNull => Err TypeError
  | JObj fields =>
      try! fields1 <- update_field transformProperties_type "type" fields;
      try! fields2 <-
        update_field (fun p => if truthy (Some p) then walk p else Ok p)
          "properties" fields1;
      Ok (JObj fields2)
  | _ => Ok v
  end.

Definition transformTool (tool : ToolInput.t) : result Tool.t :=
  let name := FunctionDeclaration.name (ToolInput.function tool) in
  let description := FunctionDeclaration.description (ToolInput.function tool) in
  let parameters := FunctionDeclaration.parameters (ToolInput.function tool) in
  try! parameters <- transformProperties parameters;
  Ok (Tool.mk [FunctionDeclaration.mk name description parameters]).

Definition transformTools (tools : list ToolInput.t) : result (list Tool.t) :=
  map_result transformTool tools.

(** ** The streaming bridge *)

Definition enqueue (r : StreamRecord) : M Controller.t unit :=
  fun c => (Controller.mk (Controller.queue c ++ [r]) (Controller.state c), Ok tt).

(** Modelled from the spec: [writeChatCompletionChunk] of [../utils], the
    chunk-writer capability that writes one record carrying the chunk. *)
Definition writeChatCompletionChunk (chunk : ChatCompletionChunk.t)
  : M Controller.t unit :=
  enqueue (ChunkRecord chunk).

(** Modelled from the spec: [writeChatCompletionEnd] of [../utils], which
    writes the end-of-stream marker. *)
Definition writeChatCompletionEnd : M Controller.t unit :=
  enqueue EndRecord.

(** [controller.close()]. *)
Definition close : M Controller.t unit :=
  fun c => (Controller.mk (Controller.queue c) Closed, Ok tt).

(** [calls.map((call, ix) => ...)], [ix] counting from [from]; the first
    call whose arguments cannot be normalized ends the map with its
    exception. *)
Fixpoint map_tool_calls (from : nat) (calls : list ModelFunctionCall.t)
  : result (list ToolCall.t) :=
  match calls with
  | [] => Ok []
  | call :: rest =>
      try! args <- replaceNewlinesInObject (ModelFunctionCall.args call);
      try! rest' <- map_tool_calls (S from) rest;
      Ok (ToolCall.mk from (string_of_index from)
            (ToolCallFunction.mk (ModelFunctionCall.name call) (JSON_stringify args))
          :: rest')
  end.

Definition text_chunk (chunkText : string) : ChatCompletionChunk.t :=
  ChatCompletionChunk.mk [Choice.mk (Delta.mk "assistant" chunkText None)].

Definition text_record (chunkText : string) : StreamRecord :=
  ChunkRecord (text_chunk chunkText).

Definition tool_calls_chunk (tool_calls : list ToolCall.t) : ChatCompletionChunk.t :=
  ChatCompletionChunk.mk [Choice.mk (Delta.mk "assistant" "" (Some tool_calls))].

(** The loop [for await (const chunk of result.stream)]. *)
Fixpoint for_await (stream : list (result string)) : M Controller.t unit :=
  match stream with
  | [] => ret tt
  | step :: rest =>
      let! chunkText <- lift step;
      writeChatCompletionChunk (text_chunk chunkText) ;;
      for_await rest
  end.

(** The [start] callback of the returned stream. *)
Definition start (result : StreamResult.t) : M Controller.t unit :=
  for_await (StreamResult.stream result) ;;
  let! calls <- lift (StreamResult.response result);
  match calls with
  | Some ((_ :: _) as calls) =>
      let! tool_calls <- lift (map_tool_calls 0 calls);
      writeChatCompletionChunk (tool_calls_chunk tool_calls)
  | _ => ret tt
  end ;;
  writeChatCompletionEnd ;;
  close.

(** [new ReadableStream({start})]: the stream once its producer has run,
    as the log of what the producer wrote and the final state; an exception
    of the producer puts the stream in the errored state. *)
Definition ReadableStream (start : M Controller.t unit) : Controller.t :=
  match start (Controller.mk [] Readable) with
  | (c, Ok _) => c
  | (c, Err e) => Controller.mk (Controller.queue c) (Errored e)
  end.

(** ** The facade *)

Definition get_messages : M World.t (list Message.t) :=
  fun w => (w, Ok (World.messages w)).

(** [messages.shift()]: removes the first element of the array and returns
    it; [None] is [undefined], on an empty array. *)
Definition shift : M World.t (option Message.t) :=
  fun w =>
    match World.messages w with
    | [] => (w, Ok None)
    | m :: rest => (World.mk rest (World.calls w), Ok (Some m))
    end.

Definition log_call (c : ClientCall) : M World.t unit :=
  fun w => (World.mk (World.messages w) (World.calls w ++ [c]), Ok tt).

(** [this.model.startChat(params)]: the session, which holds its
    parameters.  The client checks the parameters when it creates the
    session (the roles of the history and their order) and may refuse them
    with an exception; the check belongs to the client library and is the
    parameter [check].  The call is recorded also when it is refused. *)
Definition startChat_checked (check : StartChatParams.t -> result unit)
    (params : StartChatParams.t) : M World.t StartChatParams.t :=
  log_call (StartChat params) ;;
  lift (check params) ;;
  ret params.

(** The check of a client that accepts every session. *)
Definition accept_all (params : StartChatParams.t) : result unit := Ok tt.

(** [startChat] on a client that accepts every session. *)
Definition startChat (params : StartChatParams.t) : M World.t StartChatParams.t :=
  startChat_checked accept_all params.

(** [await chat.sendMessageStream(parts)]. *)
Definition sendMessageStream (this : GenerativeModel.t) (chat : StartChatParams.t)
    (parts : list Part) : M World.t StreamResult.t :=
  log_call (SendMessageStream parts) ;;
  lift (GenerativeModel.service this chat parts).

(** [messages.slice(0, -1)]: a copy without the last element. *)
Definition slice_0_m1 (messages : list Message.t) : list Message.t :=
  removelast messages.

(** [messages[messages.length - 1]]; on an empty array the index is [-1]
    and the value [undefined]. *)
Definition last_message (messages : list Message.t) : option Message.t :=
  match messages with
  | [] => None
  | _ => nth_error messages (List.length messages - 1)
  end.

(** [x?.content.trim() || ""]. *)
Definition system_message_of (first : option Message.t) : string :=
  match first with
  | None => ""
  | Some m =>
      let t := trim (Message.content m) in
      if String.eqb t "" then "" else t
  end.

Definition system_content (systemMessage : string) : Content.t :=
  Content.mk "user" [text systemMessage].

(** [this.transformMessage(currentMessage)] where [currentMessage] may be
    [undefined]. *)
Definition transformMessage_arg (message : option Message.t) : result Content.t :=
  match message with
  | None => Err TypeError
  | Some m => transformMessage m
  end.

(** [getResponse(forwardedProps)], [forwardedProps.messages] being the array
    of the world, [tools] the value of [forwardedProps.tools] and [check]
    the check of the client at [startChat]. *)
Definition getResponse_checked (check : StartChatParams.t -> result unit)
    (this : GenerativeModel.t) (tools : option (list ToolInput.t))
  : M World.t CopilotKitResponse.t :=
  let! messages <- get_messages;
  let! history <- lift (transformMessages (slice_0_m1 messages));
  let currentMessage := last_message messages in
  let! first <- shift;
  let systemMessage := system_message_of first in
  let isFirstGenGeminiPro :=
    String.eqb (GenerativeModel.model this) "gemini-pro"
    || String.eqb (GenerativeModel.model this) "models/gemini-pro" in
  let! tools' <- lift (transformTools (match tools with Some ts => ts | None => [] end));
  let! chat <-
    startChat_checked check
      (StartChatParams.mk
         (history ++ (if isFirstGenGeminiPro then [system_content systemMessage] else []))
         (if isFirstGenGeminiPro then None else Some (system_content systemMessage))
         tools');
  let! current <- lift (transformMessage_arg currentMessage);
  let! result <- sendMessageStream this chat (Content.parts current);
  ret (CopilotKitResponse.mk (ReadableStream (start result))).

(** [getResponse] on a client that accepts every session. *)
Definition getResponse (this : GenerativeModel.t) (tools : option (list ToolInput.t))
  : M World.t CopilotKitResponse.t :=
  getResponse_checked accept_all this tools.

End Adapter.

(** ** A host for concrete runs

    Instances of the two host functions for the examples below. *)
Module Host.

Definition quote : string := String (ascii_of_nat 34) EmptyString.

Definition hex_digit (n : nat) : ascii :=
    if Nat.ltb n 10 then ascii_of_nat (48 + n) else ascii_of_nat (87 + n).

Definition escape_char (c : ascii) : string :=
    let n := nat_of_ascii c in
    match n with
    | 34 => "\" ++ quote
    | 92 => "\\"
    | 8 => "\b"
    | 9 => "\t"
    | 10 => "\n"
    | 12 => "\f"
    | 13 => "\r"
    | _ =>
        if Nat.ltb n 32
        then "\u00" ++ String (hex_digit (n / 16)) (String (hex_digit (n mod 16)) EmptyString)
        else String c EmptyString
    end%string.

Fixpoint escape (s : string) : string :=
    match s with
    | EmptyString => EmptyString
    | String c s' => (escape_char c ++ escape s')%string
    end.

Definition quoted (s : string) : string := (quote ++ escape s ++ quote)%string.

  (** [JSON.stringify] without indentation. *)
Fixpoint stringify (v : json) : string :=
    match v with
    | JNull => "null"
    | JBool true => "true"
    | JBool false => "false"
    | JNum z => NilZero.string_of_int (Z.to_int z)
    | JStr s => quoted s
    | JArr items => "[" ++ String.concat "," (map stringify items) ++ "]"
    | JObj fields =>
        "{" ++ String.concat ","
                 (map (fun kv => quoted (fst kv) ++ ":" ++ stringify (snd kv)) fields)
            ++ "}"
    end%string.

  (** The texts [{"a":1}], [{"x":1}] and [{"q":"x"}]. *)
Definition text_a1 : string := ("{" ++ quoted "a" ++ ":1}")%string.
Definition text_x1 : string := ("{" ++ quoted "x" ++ ":1}")%string.
Definition text_qx : string := ("{" ++ quoted "q" ++ ":" ++ quoted "x" ++ "}")%string.

  (** [JSON.parse] on the texts of the examples; every other text the
      examples parse is not JSON. *)
Definition parse (s : string) : option json :=
    if String.eqb s text_a1 then Some (JObj [("a", JNum 1)])
    else if String.eqb s text_x1 then Some (JObj [("x", JNum 1)])
    else None.

End Host.

Definition msg (role content : string) : Message.t :=
  Message.mk role content None None.

(** A model whose service answers every message with [r]. *)
Definition demo_model (id : string) (r : StreamResult.t) : GenerativeModel.t :=
  GenerativeModel.mk id (fun _ _ => Ok r).

Definition no_output : StreamResult.t := StreamResult.mk [] (Ok None).

(** The parameters [{type: "object", properties: {a: {type: "string"}},
    required: ["a"]}] of a tool with one string parameter. *)
Definition object_schema : json :=
  JObj [("type", JStr "object");
        ("properties", JObj [("a", JObj [("type", JStr "string")])]);
        ("required", JArr [JStr "a"])].

Definition lookup_tool : ToolInput.t :=
  ToolInput.mk (FunctionDeclaration.mk "lookup" "Look something up" object_schema).

(** The same declaration with the type of the property upper-cased. *)
Definition object_schema_upper : json :=
  JObj [("type", JStr "object");
        ("properties", JObj [("a", JObj [("type", JStr "STRING")])]);
        ("required", JArr [JStr "a"])].

Definition system_user : list Message.t :=
  [msg "system" "S"; msg "user" "Hi"].

(** An assistant text with two occurrences of backslash, backslash, n. *)
Definition escaped_twice : Message.t := msg "assistant" "a\\nb\\nc".

(** An assistant function call whose arguments are not JSON. *)
Definition bad_call : Message.t :=
  Message.mk "assistant" "" None (Some (FunctionCall.mk (Some "f") (Some "{"))).

(** A tool whose parameters have a [null] value. *)
Definition null_tool : ToolInput.t :=
  ToolInput.mk (FunctionDeclaration.mk "broken" "" (JObj [("x", JNull)])).

(** A map of properties, as found under [properties] in a schema. *)
Definition property_map : json :=
  JObj [("a", JObj [("type", JStr "string")]);
        ("b", JObj [("type", JStr "object");
                    ("properties", JObj [("c", JObj [("type", JStr "number")])])])].

Definition property_map_upper : json :=
  JObj [("a", JObj [("type", JStr "STRING")]);
        ("b", JObj [("type", JStr "OBJECT");
                    ("properties", JObj [("c", JObj [("type", JStr "NUMBER")])])])].

Definition system_tool_user : list Message.t :=
  [msg "system" "S"; msg "tool" "x"; msg "user" "Hi"].

(** A function call reported by the model; its argument holds the
    three-character sequence backslash, backslash, n. *)
Definition lookup_call : ModelFunctionCall.t :=
  ModelFunctionCall.mk "lookup" (JObj [("q", JStr "x\\ny")]).

(** The same call with the two-character sequence backslash, n. *)
Definition lookup_call_backslash_n : ModelFunctionCall.t :=
  ModelFunctionCall.mk "lookup" (JObj [("q", JStr "x\ny")]).

(** A function call with an argument named [hasOwnProperty]. *)
Definition shadowing_call : ModelFunctionCall.t :=
  ModelFunctionCall.mk "lookup" (JObj [("hasOwnProperty", JNum 1)]).

(** A client for the examples: it refuses a session whose history starts
    with a turn that is not a user turn, and accepts every other one. *)
Definition user_turn_first (params : StartChatParams.t) : result unit :=
  match StartChatParams.history params with
  | first :: _ =>
      if String.eqb (Content.role first) "user" then Ok tt else Err UpstreamError
  | [] => Ok tt
  end.

(** ** Relations used by the statements *)

(** [kept_in_order transcode messages contents]: [contents] is, in order,
    the transcoding of each message of [messages] whose role is [user],
    [assistant], [function] or [system]; the other messages contribute
    nothing. *)
Inductive kept_in_order (transcode : Message.t -> result Content.t)
  : list Message.t -> list Content.t -> Prop :=
| kept_nil : kept_in_order transcode [] []
| kept_keep m ms c cs :
    (Message.role m = "user" \/ Message.role m = "assistant" \/
     Message.role m = "function" \/ Message.role m = "system") ->
    transcode m = Ok c ->
    kept_in_order transcode ms cs ->
    kept_in_order transcode (m :: ms) (c :: cs)
| kept_drop m ms cs :
    Message.role m <> "user" -> Message.role m <> "assistant" ->
    Message.role m <> "function" -> Message.role m <> "system" ->
    kept_in_order transcode ms cs ->
    kept_in_order transcode (m :: ms) cs.

(** [occurs_at pat s pre post]: [pat] occurs in [s] between [pre] and
    [post]. *)
Definition occurs_at (pat s pre post : string) : Prop :=
  s = (pre ++ pat ++ post)%string.

(** The occurrence after [pre] is the leftmost one. *)
Definition leftmost (pat s pre : string) : Prop :=
  forall pre' post', occurs_at pat s pre' post' -> String.length pre <= String.length pre'.

(** [normalized v]: no string value of [v] holds the sequence backslash,
    backslash, n.  The keys of objects are not looked at. *)
Fixpoint normalized (v : json) : Prop :=
  match v with
  | JStr s => forall pre post, ~ occurs_at escaped_newline s pre post
  | JArr items =>
      (fix all (l : list json) : Prop :=
         match l with
         | [] => True
         | x :: rest => normalized x /\ all rest
         end) items
  | JObj fields =>
      (fix all (l : list (string * json)) : Prop :=
         match l with
         | [] => True
         | kv :: rest => normalized (snd kv) /\ all rest
         end) fields
  | _ => True
  end.

(** [all_replaced pat rep s t]: [t] is [s] with every occurrence of [pat]
    replaced by [rep], the occurrences being taken from left to right, each
    search starting after the occurrence before it. *)
Inductive all_replaced (pat rep : string) : string -> string -> Prop :=
| replaced_none s :
    (forall pre post, ~ occurs_at pat s pre post) ->
    all_replaced pat rep s s
| replaced_leftmost s pre post t :
    occurs_at pat s pre post ->
    leftmost pat s pre ->
    all_replaced pat rep post t ->
    all_replaced pat rep s (pre ++ rep ++ t).

(** [newlines_replaced v v']: [v'] is [v] with, in every string value at
    any depth of arrays and objects, every sequence backslash, backslash, n
    replaced by a newline; the shape, the keys and their order, and the
    values that are not strings are those of [v]. *)
Inductive newlines_replaced : json -> json -> Prop :=
| replaced_null : newlines_replaced JNull JNull
| replaced_bool b : newlines_replaced (JBool b) (JBool b)
| replaced_num z : newlines_replaced (JNum z) (JNum z)
| replaced_str s t :
    all_replaced escaped_newline newline s t ->
    newlines_replaced (JStr s) (JStr t)
| replaced_arr items items' :
    Forall2 newlines_replaced items items' ->
    newlines_replaced (JArr items) (JArr items')
| replaced_obj fields fields' :
    Forall2
      (fun kv kv' => fst kv = fst kv' /\ newlines_replaced (snd kv) (snd kv'))
      fields fields' ->
    newlines_replaced (JObj fields) (JObj fields').

(** [plain_keys v]: no object of [v], at any depth, has an own key
    [hasOwnProperty] or [__proto__]. *)
Fixpoint plain_keys (v : json) : bool :=
  match v with
  | JArr items =>
      (fix all (l : list json) : bool :=
         match l with
         | [] => true
         | x :: rest => plain_keys x && all rest
         end) items
  | JObj fields =>
      match assoc "hasOwnProperty" fields, assoc "__proto__" fields with
      | None, None =>
          (fix all (l : list (string * json)) : bool :=
             match l with
             | [] => true
             | kv :: rest => plain_keys (snd kv) && all rest
             end) fields
      | _, _ => false
      end
  | _ => true
  end.

(** The normalization in the specification's words, to be compared with
    [replaceNewlinesInObject]: in every string value, at any depth, the
    escape pattern of the text content, written there as the two characters
    backslash, n, becomes a newline. *)
Fixpoint normalize_backslash_n (v : json) : json :=
  match v with
  | JStr s => JStr (replace_global backslash_n newline 0 s)
  | JArr items => JArr (map normalize_backslash_n items)
  | JObj fields => JObj (map (fun kv => (fst kv, normalize_backslash_n (snd kv))) fields)
  | _ => v
  end.

(** Structural induction on [json], with the induction hypothesis for
    every element of an array and every value of an object. *)
Section JsonInduction.
Variable P : json -> Prop.
Hypothesis HNull : P JNull.
Hypothesis HBool : forall b, P (JBool b).
Hypothesis HNum : forall z, P (JNum z).
Hypothesis HStr : forall s, P (JStr s).
Hypothesis HArr : forall items, Forall P items -> P (JArr items).
Hypothesis HObj : forall fields, Forall (fun kv => P (snd kv)) fields -> P (JObj fields).

Fixpoint json_induction (v : json) : P v :=
  match v with
  | JNull => HNull
  | JBool b => HBool b
  | JNum z => HNum z
  | JStr s => HStr s
  | JArr items =>
      HArr
        ((fix all (l : list json) : Forall P l :=
            match l with
            | [] => Forall_nil P
            | x :: rest => Forall_cons x (json_induction x) (all rest)
            end) items)
  | JObj fields =>
      HObj
        ((fix all (l : list (string * json)) : Forall (fun kv => P (snd kv)) l :=
            match l with
            | [] => Forall_nil _
            | kv :: rest =>
                @Forall_cons _ (fun kv => P (snd kv)) kv rest
                  (json_induction (snd kv)) (all rest)
            end) fields)
  end.
End JsonInduction.

(** [v[key] = x] on the fields of an object that has the field. *)
Fixpoint assoc_set (key : string) (x : json) (fields : list (string * json))
  : list (string * json) :=
  match fields with
  | [] => []
  | (k, y) :: rest =>
      if String.eqb k key then (k, x) :: rest else (k, y) :: assoc_set key x rest
  end.

(** [enumerated props v]: [v] is one of the values [props[key]] of the loop
    of [transformProperties]. *)
Definition enumerated (props v : json) : Prop :=
  match props with
  | JObj fields => exists k, In (k, v) fields
  | JArr items => In v items
  | _ => False
  end.

(** [walked props q]: [q] is the [properties] of an object enumerated in
    [props], the argument of a recursive call of [transformProperties]. *)
Definition walked (props q : json) : Prop :=
  exists v fields,
    enumerated props v /\ v = JObj fields /\ assoc "properties" fields = Some q.

(** [inert v]: the loop of [transformProperties] has nothing to do for the
    enumerated value [v]: it is not [null] and has no truthy [type] or
    [properties]. *)
Definition inert (v : json) : Prop :=
  match v with
  | JNull => False
  | JObj fields =>
      truthy (assoc "type" fields) = false /\
      truthy (assoc "properties" fields) = false
  | _ => True
  end.

(** [blank v]: [v] with every string value emptied; keys, order, numbers,
    booleans and nulls are kept. *)
Fixpoint blank (v : json) : json :=
  match v with
  | JStr _ => JStr ""
  | JArr items => JArr (map blank items)
  | JObj fields => JObj (map (fun kv => (fst kv, blank (snd kv))) fields)
  | _ => v
  end.

(** ** The GraphQL endpoint of the runtime

    [integrations/shared.ts] and [integrations/nextjs/app-router.ts].  The
    logger factory, the schema builder, the plugin and the server factory
    belong to other modules and are variables; the debug messages that the
    functions log are not modelled. *)

(** An object with fields of one type, in property order. *)
Fixpoint lookup {V : Type} (key : string) (o : list (string * V)) : option V :=
  match o with
  | [] => None
  | (k, v) :: rest => if String.eqb k key then Some v else lookup key rest
  end.

(** [{...o, key: v}]: the field is replaced where it stands, or added at
    the end. *)
Fixpoint define {V : Type} (key : string) (v : V) (o : list (string * V))
  : list (string * V) :=
  match o with
  | [] => [(key, v)]
  | (k, x) :: rest =>
      if String.eqb k key then (k, v) :: rest else (k, x) :: define key v rest
  end.

Module ServerOptions.
Record t (Runtime Adapter Cloud : Type) : Type := mk {
  runtime : Runtime;
  serviceAdapter : Adapter;
  endpoint : string;
  baseUrl : option string;
  cloud : option Cloud;
  properties : option (list (string * json));
  logLevel : option string
}.
End ServerOptions.

(** The value of a field of the GraphQL context: a field of the initial
    context of the server, or one of the three fields that [createContext]
    sets. *)
Inductive ContextField (Initial Options Logger : Type) : Type :=
| FromInitial (v : Initial)
| CopilotKit (options : Options)
| Properties (properties : list (string * json))
| ContextLogger (logger : Logger).
Arguments FromInitial {Initial Options Logger} v.
Arguments CopilotKit {Initial Options Logger} options.
Arguments Properties {Initial Options Logger} properties.
Arguments ContextLogger {Initial Options Logger} logger.

Module CommonConfig.
Record t (Logger Schema Plugin Context : Type) : Type := mk {
  logging : Logger;
  schema : Schema;
  plugins : list Plugin;
  context : Context
}.
End CommonConfig.

Module YogaOptions.
Record t (Config : Type) : Type := mk {
  commonConfig : Config;           (* [...commonConfig] *)
  graphqlEndpoint : string         (* [fetchAPI], a constant of the platform, is left out *)
}.
End YogaOptions.

Module Endpoint.
Record t (Yoga : Type) : Type := mk {
  handleRequest : Yoga;
  GET : Yoga;
  POST : Yoga;
  OPTIONS : Yoga
}.
End Endpoint.

Section Runtime.

Variables Runtime Adapter Cloud Initial Logger Schema Plugin Yoga : Type.

(** [createLogger({level, component})] of [lib/logger]. *)
Variable createLogger : option string -> option string -> Logger.
(** [buildSchemaSync({resolvers: [CopilotResolver], emitSchemaFile})]. *)
Variable buildSchemaSync : option string -> Schema.
Variable useDeferStream : Plugin.

Definition Options : Type := ServerOptions.t Runtime Adapter Cloud.
Definition Context : Type := list (string * ContextField Initial Options Logger).
Definition Config : Type :=
  CommonConfig.t Logger Schema Plugin (list (string * Initial) -> Context).

Variable createYoga : YogaOptions.t Config -> Yoga.

(** [createContext(initialContext, copilotKitContext, contextLogger,
    properties = {})]; the fields of the initial context come first, the
    three others are written after them. *)
Definition createContext (initialContext : list (string * Initial))
    (copilotKitContext : Options) (contextLogger : Logger)
    (properties : option (list (string * json))) : Context :=
  let properties := match properties with Some p => p | None => [] end in
  define "logger" (ContextLogger contextLogger)
    (define "properties" (Properties properties)
       (define "_copilotkit" (CopilotKit copilotKitContext)
          (map (fun kv => (fst kv, FromInitial (snd kv))) initialContext))).

(** [buildSchema(options = {})]. *)
Definition buildSchema (emitSchemaFile : option string) : Schema :=
  buildSchemaSync emitSchemaFile.

(** [a || b] on values that are strings or [undefined]. *)
Definition or_else (a : option string) (b : option string) : option string :=
  match a with
  | Some x => if String.eqb x "" then b else a
  | None => b
  end.

(** [process.env.LOG_LEVEL || options.logLevel || "error"]. *)
Definition logLevel_of (LOG_LEVEL : option string) (options : Options) : string :=
  match or_else (or_else LOG_LEVEL (ServerOptions.logLevel options)) (Some "error") with
  | Some level => level
  | None => ""
  end.

(** [getCommonConfig(options)], [LOG_LEVEL] being the value of
    [process.env.LOG_LEVEL]. *)
Definition getCommonConfig (LOG_LEVEL : option string) (options : Options) : Config :=
  let logLevel := logLevel_of LOG_LEVEL options in
  let contextLogger := createLogger (Some logLevel) None in
  CommonConfig.mk
    (createLogger (Some logLevel) (Some "Yoga GraphQL"))
    (buildSchema None)
    [useDeferStream]
    (fun ctx =>
       createContext ctx options contextLogger (ServerOptions.properties options)).

Definition copilotRuntimeNextJSAppRouterEndpoint (LOG_LEVEL : option string)
    (options : Options) : Endpoint.t Yoga :=
  let commonConfig := getCommonConfig LOG_LEVEL options in
  let yoga := createYoga (YogaOptions.mk commonConfig (ServerOptions.endpoint options)) in
  Endpoint.mk yoga yoga yoga yoga.

End Runtime.

(** * Properties *)

(** ** Running a computation *)

Lemma bind_eq {S A B} (m : M S A) (k : A -> M S B) (s : S) :
  bind m k s =
  match m s with
  | (s', Ok a) => k a s'
  | (s', Err e) => (s', Err e)
  end.
Proof. reflexivity. Qed.

(** ** Strings *)

Lemma escaped_newline_chars :
  escaped_newline = String "\" (String "\" (String "n" EmptyString)).
Proof. reflexivity. Qed.

Lemma backslash_n_chars :
  backslash_n = String "\" (String "n" EmptyString).
Proof. reflexivity. Qed.

Lemma prefix_app (pat post : string) : prefix pat (pat ++ post) = true.
Proof.
  induction pat as [|c pat IH]; simpl.
  - destruct post; reflexivity.
  - destruct (ascii_dec c c) as [_|n]; [exact IH | now elim n].
Qed.

Lemma prefix_occurs (pat s : string) :
  prefix pat s = true -> exists post, s = (pat ++ post)%string.
Proof.
  revert s; induction pat as [|c pat IH]; intros s H.
  - exists s; reflexivity.
  - destruct s as [|d s]; simpl in H; [discriminate|].
    destruct (ascii_dec c d) as [->|]; [|discriminate].
    destruct (IH _ H) as [post ->]. exists post; reflexivity.
Qed.

Lemma drop_app (pat post : string) : drop (String.length pat) (pat ++ post) = post.
Proof. induction pat; simpl; auto. Qed.

Lemma replace_eq (pat rep s : string) :
  replace pat rep s =
  if prefix pat s then (rep ++ drop (String.length pat) s)%string
  else match s with
       | EmptyString => EmptyString
       | String c s' => String c (replace pat rep s')
       end.
Proof. destruct s; reflexivity. Qed.

Lemma replace_leftmost (pat rep s pre post : string) :
  occurs_at pat s pre post ->
  leftmost pat s pre ->
  replace pat rep s = (pre ++ rep ++ post)%string.
Proof.
  unfold occurs_at, leftmost. revert s.
  induction pre as [|c pre IH]; intros s Hs Hmin; subst s.
  - change (replace pat rep (pat ++ post) = (rep ++ post)%string).
    rewrite replace_eq, prefix_app, drop_app; reflexivity.
  - rewrite replace_eq. simpl String.append.
    destruct (prefix pat (String c (pre ++ pat ++ post))) eqn:Hp.
    + apply prefix_occurs in Hp. destruct Hp as [post' Hp].
      specialize (Hmin EmptyString post' Hp). simpl in Hmin. lia.
    + f_equal. apply IH; [reflexivity|].
      intros pre' post' H'.
      specialize (Hmin (String c pre') post'). simpl in Hmin.
      rewrite H' in Hmin. specialize (Hmin eq_refl). lia.
Qed.

Lemma replace_absent (pat rep s : string) :
  (forall pre post, ~ occurs_at pat s pre post) ->
  replace pat rep s = s.
Proof.
  unfold occurs_at. induction s as [|c s IH]; intros Hno.
  - rewrite replace_eq. destruct (prefix pat EmptyString) eqn:Hp; [|reflexivity].
    apply prefix_occurs in Hp. destruct Hp as [post Hp].
    now elim (Hno EmptyString post).
  - rewrite replace_eq. destruct (prefix pat (String c s)) eqn:Hp.
    + apply prefix_occurs in Hp. destruct Hp as [post Hp].
      now elim (Hno EmptyString post).
    + f_equal. apply IH. intros pre post H.
      apply (Hno (String c pre) post). simpl. now rewrite H.
Qed.

Section TranscoderFacts.

Variable JSON_parse : string -> option json.

(** ** The message transcoder *)

Lemma transformMessages_cons (m : Message.t) (ms : list Message.t) :
  transformMessages JSON_parse (m :: ms) =
  if recognized_role (Message.role m)
  then try! c <- transformMessage JSON_parse m;
       try! cs <- transformMessages JSON_parse ms;
       Ok (c :: cs)
  else transformMessages JSON_parse ms.
Proof.
  unfold transformMessages. simpl.
  destruct (recognized_role (Message.role m)); reflexivity.
Qed.

Lemma recognized_role_cases (r : string) :
  recognized_role r = true <->
  r = "user" \/ r = "assistant" \/ r = "function" \/ r = "system".
Proof.
  unfold recognized_role. rewrite !orb_true_iff, !String.eqb_eq. tauto.
Qed.


Lemma recognized_role_not (r : string) :
  recognized_role r = false <->
  r <> "user" /\ r <> "assistant" /\ r <> "function" /\ r <> "system".
Proof.
  destruct (recognized_role r) eqn:E.
  - apply recognized_role_cases in E. split; [discriminate|]. tauto.
  - split; [|reflexivity]. intros _.
    assert (H : ~ (r = "user" \/ r = "assistant" \/ r = "function" \/ r = "system")).
    { intros H. apply recognized_role_cases in H. congruence. }
    tauto.
Qed.

Lemma transformMessages_kept (messages : list Message.t) (contents : list Content.t) :
  transformMessages JSON_parse messages = Ok contents ->
  kept_in_order (transformMessage JSON_parse) messages contents.
Proof.
  revert contents. induction messages as [|m ms IH]; intros contents H.
  - inversion H. constructor.
  - rewrite transformMessages_cons in H.
    destruct (recognized_role (Message.role m)) eqn:Hr.
    + destruct (transformMessage JSON_parse m) as [c|e] eqn:Hc; simpl in H; [|discriminate].
      destruct (transformMessages JSON_parse ms) as [cs|e]; simpl in H; [|discriminate].
      inversion H; subst. apply kept_keep; auto.
      now apply recognized_role_cases.
    + apply recognized_role_not in Hr. destruct Hr as [H1 [H2 [H3 H4]]].
      apply kept_drop; auto.
Qed.

Lemma kept_transformMessages (messages : list Message.t) (contents : list Content.t) :
  kept_in_order (transformMessage JSON_parse) messages contents ->
  transformMessages JSON_parse messages = Ok contents.
Proof.
  induction 1 as [|m ms c cs Hr Hc _ IH|m ms cs H1 H2 H3 H4 _ IH];
    [reflexivity| |]; rewrite transformMessages_cons.
  - apply recognized_role_cases in Hr. rewrite Hr, Hc, IH. reflexivity.
  - assert (Hr : recognized_role (Message.role m) = false)
      by (apply recognized_role_not; auto).
    rewrite Hr. exact IH.
Qed.

Lemma transformMessages_error (messages : list Message.t) :
  (exists e, transformMessages JSON_parse messages = Err e) <->
  (exists m, In m messages /\
             (Message.role m = "user" \/ Message.role m = "assistant" \/
              Message.role m = "function" \/ Message.role m = "system") /\
             exists e, transformMessage JSON_parse m = Err e).
Proof.
  induction messages as [|m ms IH].
  - split; [intros [e H]; discriminate | intros [m [[] _]]].
  - rewrite transformMessages_cons. split.
    + intros [e H]. destruct (recognized_role (Message.role m)) eqn:Hr.
      * destruct (transformMessage JSON_parse m) as [c|e'] eqn:Hc.
        -- simpl in H. destruct (transformMessages JSON_parse ms) as [cs|e'']; [discriminate|].
           destruct IH as [IH _]. destruct IH as [m' [Hin Hm']]; [eauto|].
           exists m'. split; [now right | exact Hm'].
        -- exists m. split; [now left|]. split; [now apply recognized_role_cases|]. eauto.
      * destruct IH as [IH _]. destruct IH as [m' [Hin Hm']]; [eauto|].
        exists m'. split; [now right | exact Hm'].
    + intros [m' [[<-|Hin] [Hr [e He]]]].
      * apply recognized_role_cases in Hr. rewrite Hr, He. simpl. eauto.
      * destruct IH as [_ IH]. destruct IH as [e' He']; [eauto|].
        destruct (recognized_role (Message.role m)); [|eauto].
        destruct (transformMessage JSON_parse m); simpl; [|eauto].
        rewrite He'. simpl. eauto.
Qed.

(** C7.  For every list of messages, [transformMessages] returns a list of
    contents exactly when that list is, in the order of the input, the
    transcoding of each message whose role is [user], [assistant],
    [function] or [system]; a message with another role is dropped, and no
    message with one of the four roles is.  It throws exactly when a
    message with one of the four roles cannot be transcoded. *)
Theorem transformMessages_keeps_recognized_in_order :
  forall messages : list Message.t,
    (forall contents,
        transformMessages JSON_parse messages = Ok contents <->
        kept_in_order (transformMessage JSON_parse) messages contents) /\
    ((exists e, transformMessages JSON_parse messages = Err e) <->
     (exists m, In m messages /\
                (Message.role m = "user" \/ Message.role m = "assistant" \/
                 Message.role m = "function" \/ Message.role m = "system") /\
                exists e, transformMessage JSON_parse m = Err e)).
Proof.
  intros messages. split.
  - intros contents. split.
    + apply transformMessages_kept.
    + apply kept_transformMessages.
  - apply transformMessages_error.
Qed.

(** C5, as the code has it.  For every assistant message without a
    [function_call], [transformMessage] returns [{role: model, parts:
    [{text: t}]}] where [t] is the content with the leftmost occurrence of
    the three-character sequence backslash, backslash, n replaced by a
    newline character; what follows that occurrence is left unchanged, and
    a content without the sequence is returned as it is. *)
Theorem transformMessage_assistant_text :
  forall m : Message.t,
    Message.role m = "assistant" ->
    Message.function_call m = None ->
    exists t,
      transformMessage JSON_parse m = Ok (Content.mk "model" [text t]) /\
      (forall pre post,
          occurs_at escaped_newline (Message.content m) pre post ->
          leftmost escaped_newline (Message.content m) pre ->
          t = (pre ++ newline ++ post)%string) /\
      ((forall pre post, ~ occurs_at escaped_newline (Message.content m) pre post) ->
       t = Message.content m).
Proof.
  intros m Hr Hf.
  exists (replace escaped_newline newline (Message.content m)).
  split; [|split].
  - unfold transformMessage. rewrite Hr, Hf. reflexivity.
  - intros pre post Ho Hl. now apply replace_leftmost.
  - apply replace_absent.
Qed.

End TranscoderFacts.

Section BridgeFacts.

Variable JSON_stringify : json -> string.

(** ** The streaming bridge *)

Lemma for_await_cons_ok (f : string) (rest : list (result string)) (c : Controller.t) :
  for_await (Ok f :: rest) c =
  for_await rest
    (Controller.mk (Controller.queue c ++ [text_record f]) (Controller.state c)).
Proof. reflexivity. Qed.

Lemma for_await_cons_err (e : error) (rest : list (result string)) (c : Controller.t) :
  for_await (Err e :: rest) c = (c, Err e).
Proof. reflexivity. Qed.

Lemma for_await_fragments (fragments : list string) (c : Controller.t) :
  for_await (map Ok fragments) c =
  (Controller.mk (Controller.queue c ++ map text_record fragments) (Controller.state c),
   Ok tt).
Proof.
  revert c. induction fragments as [|f fs IH]; intros c.
  - simpl. rewrite app_nil_r. destruct c; reflexivity.
  - cbn [map]. rewrite for_await_cons_ok, IH.
    cbn [Controller.queue Controller.state].
    rewrite <- app_assoc. reflexivity.
Qed.

Lemma for_await_state (stream : list (result string)) (c : Controller.t) :
  Controller.state (fst (for_await stream c)) = Controller.state c.
Proof.
  revert c. induction stream as [|[f|e] rest IH]; intros c; try reflexivity.
  rewrite for_await_cons_ok, IH. reflexivity.
Qed.

(** The producer either completes, having written the end marker last and
    closed the stream, or throws, leaving the state of the stream as it
    was. *)
Lemma start_outcome (r : StreamResult.t) (c : Controller.t) :
  (exists q, start JSON_stringify r c = (Controller.mk (q ++ [EndRecord]) Closed, Ok tt)) \/
  (exists c' e, start JSON_stringify r c = (c', Err e) /\
                Controller.state c' = Controller.state c).
Proof.
  unfold start. rewrite bind_eq.
  pose proof (for_await_state (StreamResult.stream r) c) as Hs.
  destruct (for_await (StreamResult.stream r) c) as [c1 [[]|e]]; simpl in Hs.
  - rewrite bind_eq. cbn [lift].
    destruct (StreamResult.response r) as [calls|e].
    + destruct calls as [[|call rest]|]; try (left; cbn; eexists; reflexivity).
      cbn [bind lift].
      destruct (map_tool_calls JSON_stringify 0 (call :: rest)) as [tcs|e].
      * left. cbn. eexists. reflexivity.
      * right. exists c1, e. split; [reflexivity | exact Hs].
    + right. exists c1, e. split; [reflexivity | exact Hs].
  - right. exists c1, e. split; [reflexivity | exact Hs].
Qed.

Lemma ReadableStream_outcome (r : StreamResult.t) :
  (Controller.state (ReadableStream (start JSON_stringify r)) = Closed /\
   exists q, Controller.queue (ReadableStream (start JSON_stringify r)) = q ++ [EndRecord]) \/
  (exists e, Controller.state (ReadableStream (start JSON_stringify r)) = Errored e).
Proof.
  unfold ReadableStream.
  destruct (start_outcome r (Controller.mk [] Readable)) as [[q H]|[c' [e [H _]]]];
    rewrite H; cbn; eauto.
Qed.

Lemma start_fragments (fragments : list string)
    (response : result (option (list ModelFunctionCall.t))) :
  ReadableStream (start JSON_stringify (StreamResult.mk (map Ok fragments) response)) =
  match response with
  | Ok (Some ((_ :: _) as calls)) =>
      match map_tool_calls JSON_stringify 0 calls with
      | Ok tool_calls =>
          Controller.mk
            (map text_record fragments
               ++ [ChunkRecord (tool_calls_chunk tool_calls); EndRecord])
            Closed
      | Err e => Controller.mk (map text_record fragments) (Errored e)
      end
  | Ok _ => Controller.mk (map text_record fragments ++ [EndRecord]) Closed
  | Err e => Controller.mk (map text_record fragments) (Errored e)
  end.
Proof.
  unfold ReadableStream, start. rewrite bind_eq.
  cbn [StreamResult.stream StreamResult.response].
  rewrite for_await_fragments. cbn [Controller.queue Controller.state app].
  destruct response as [[[|call rest]|]|e]; try (cbn; reflexivity).
  rewrite bind_eq, bind_eq. cbn [lift]. rewrite bind_eq. cbn [lift].
  destruct (map_tool_calls JSON_stringify 0 (call :: rest)) as [tcs|e];
    cbn; [|reflexivity].
  rewrite <- app_assoc. reflexivity.
Qed.

(** C6, as the code has it.  For every sequence of text fragments produced
    by the upstream stream, whatever the aggregated response, the bridge
    first writes exactly one chunk per fragment, in upstream order, with
    [delta.role = assistant] and [delta.content] the fragment: an empty
    fragment gets its chunk like any other.  No record written after them
    is such a text chunk. *)
Theorem start_one_chunk_per_fragment :
  forall (fragments : list string)
         (response : result (option (list ModelFunctionCall.t))),
    exists later,
      Controller.queue
        (ReadableStream
           (start JSON_stringify (StreamResult.mk (map Ok fragments) response)))
      = map (fun fragment =>
               ChunkRecord
                 (ChatCompletionChunk.mk
                    [Choice.mk (Delta.mk "assistant" fragment None)]))
            fragments
          ++ later /\
      Forall (fun record =>
                match record with
                | ChunkRecord chunk =>
                    exists tool_calls,
                      chunk = ChatCompletionChunk.mk
                                [Choice.mk (Delta.mk "assistant" "" (Some tool_calls))]
                | EndRecord => True
                end)
             later.
Proof.
  intros fragments response. rewrite start_fragments.
  destruct response as [[[|call rest]|]|e]; cbn [Controller.queue].
  - exists [EndRecord]. split; [reflexivity | repeat constructor].
  - destruct (map_tool_calls JSON_stringify 0 (call :: rest)) as [tool_calls|e];
      cbn [Controller.queue].
    + eexists. split; [reflexivity|].
      constructor; [|repeat constructor]. eexists. reflexivity.
    + exists []. split; [now rewrite app_nil_r | constructor].
  - exists [EndRecord]. split; [reflexivity | repeat constructor].
  - exists []. split; [now rewrite app_nil_r | constructor].
Qed.

End BridgeFacts.

Section FacadeFacts.

Variable JSON_parse : string -> option json.
Variable JSON_stringify : json -> string.

(** ** The facade *)

Lemma system_message_of_trim (m : Message.t) :
  system_message_of (Some m) = trim (Message.content m).
Proof.
  unfold system_message_of.
  destruct (String.eqb (trim (Message.content m)) "") eqn:E; [|reflexivity].
  apply String.eqb_eq in E. now rewrite E.
Qed.

(** One run of [getResponse], step by step: the history is transcoded
    before anything is changed; then the first message is removed from the
    array; then the tools are transcoded, the session is created, which the
    client may refuse, the last message is transcoded and sent. *)
Lemma getResponse_checked_run (check : StartChatParams.t -> result unit)
    (this : GenerativeModel.t) (tools : option (list ToolInput.t)) (w : World.t) :
  getResponse_checked JSON_parse JSON_stringify check this tools w =
  match transformMessages JSON_parse (slice_0_m1 (World.messages w)) with
  | Err e => (w, Err e)
  | Ok history =>
      let systemMessage := system_message_of (hd_error (World.messages w)) in
      let isFirstGenGeminiPro :=
        String.eqb (GenerativeModel.model this) "gemini-pro"
        || String.eqb (GenerativeModel.model this) "models/gemini-pro" in
      let rest := tl (World.messages w) in
      match transformTools (match tools with Some ts => ts | None => [] end) with
      | Err e => (World.mk rest (World.calls w), Err e)
      | Ok tools' =>
          let params :=
            StartChatParams.mk
              (history ++ (if isFirstGenGeminiPro then [system_content systemMessage] else []))
              (if isFirstGenGeminiPro then None else Some (system_content systemMessage))
              tools' in
          match check params with
          | Err e => (World.mk rest (World.calls w ++ [StartChat params]), Err e)
          | Ok _ =>
              match transformMessage_arg JSON_parse (last_message (World.messages w)) with
              | Err e => (World.mk rest (World.calls w ++ [StartChat params]), Err e)
              | Ok current =>
                  let w' :=
                    World.mk rest
                      (World.calls w
                         ++ [StartChat params; SendMessageStream (Content.parts current)]) in
                  match GenerativeModel.service this params (Content.parts current) with
                  | Err e => (w', Err e)
                  | Ok r =>
                      (w', Ok (CopilotKitResponse.mk
                                 (ReadableStream (start JSON_stringify r))))
                  end
              end
          end
      end
  end.
Proof.
  destruct w as [messages calls]. unfold getResponse_checked.
  rewrite bind_eq. cbn [get_messages World.messages World.calls].
  rewrite bind_eq. cbn [lift].
  destruct (transformMessages JSON_parse (slice_0_m1 messages)) as [history|e];
    [|reflexivity].
  rewrite bind_eq.
  assert (Hshift : shift (World.mk messages calls)
                   = (World.mk (tl messages) calls, Ok (hd_error messages)))
    by (destruct messages; reflexivity).
  rewrite Hshift. clear Hshift.
  rewrite bind_eq. cbn [lift].
  destruct (transformTools (match tools with Some ts => ts | None => [] end))
    as [tools'|e]; [|reflexivity].
  cbv zeta. rewrite bind_eq.
  unfold startChat_checked at 1. rewrite bind_eq.
  cbn [log_call World.messages World.calls].
  rewrite bind_eq. cbn [lift].
  destruct (check _) as [[]|e]; [|reflexivity].
  cbn [ret]. rewrite bind_eq. cbn [lift].
  destruct (transformMessage_arg JSON_parse (last_message messages)) as [current|e];
    [|reflexivity].
  rewrite bind_eq. unfold sendMessageStream. rewrite bind_eq.
  cbn [log_call lift World.messages World.calls].
  rewrite <- app_assoc. cbn [app].
  destruct (GenerativeModel.service this _ (Content.parts current)); reflexivity.
Qed.

(** The same on a client that accepts every session. *)
Lemma getResponse_run (this : GenerativeModel.t) (tools : option (list ToolInput.t))
    (w : World.t) :
  getResponse JSON_parse JSON_stringify this tools w =
  match transformMessages JSON_parse (slice_0_m1 (World.messages w)) with
  | Err e => (w, Err e)
  | Ok history =>
      let systemMessage := system_message_of (hd_error (World.messages w)) in
      let isFirstGenGeminiPro :=
        String.eqb (GenerativeModel.model this) "gemini-pro"
        || String.eqb (GenerativeModel.model this) "models/gemini-pro" in
      let rest := tl (World.messages w) in
      match transformTools (match tools with Some ts => ts | None => [] end) with
      | Err e => (World.mk rest (World.calls w), Err e)
      | Ok tools' =>
          let params :=
            StartChatParams.mk
              (history ++ (if isFirstGenGeminiPro then [system_content systemMessage] else []))
              (if isFirstGenGeminiPro then None else Some (system_content systemMessage))
              tools' in
          match transformMessage_arg JSON_parse (last_message (World.messages w)) with
          | Err e => (World.mk rest (World.calls w ++ [StartChat params]), Err e)
          | Ok current =>
              let w' :=
                World.mk rest
                  (World.calls w
                     ++ [StartChat params; SendMessageStream (Content.parts current)]) in
              match GenerativeModel.service this params (Content.parts current) with
              | Err e => (w', Err e)
              | Ok r =>
                  (w', Ok (CopilotKitResponse.mk (ReadableStream (start JSON_stringify r))))
              end
          end
      end
  end.
Proof.
  unfold getResponse. rewrite getResponse_checked_run.
  destruct (transformMessages JSON_parse (slice_0_m1 (World.messages w)));
    [|reflexivity].
  cbv zeta. destruct (transformTools _); reflexivity.
Qed.

(** C2.  For every call of [getResponse] that gets to create the chat
    session (history and tools transcoded), exactly one session is created,
    with the transcoded tools, and: if the model identifier is [gemini-pro]
    or [models/gemini-pro], its history is the transcoded prior messages
    followed by one extra entry [{role: user, parts: [{text:
    systemMessage}]}] and it has no [systemInstruction]; for any other
    identifier its [systemInstruction] is that content and its history is
    the transcoded prior messages alone.  [systemMessage] is the trimmed
    content of the first message, or the empty string on an empty list. *)
Theorem getResponse_system_instruction_placement :
  forall (this : GenerativeModel.t) (tools : option (list ToolInput.t)) (w : World.t)
         (history : list Content.t) (tools' : list Tool.t),
    transformMessages JSON_parse (slice_0_m1 (World.messages w)) = Ok history ->
    transformTools (match tools with Some ts => ts | None => [] end) = Ok tools' ->
    let systemMessage :=
      match World.messages w with
      | [] => ""
      | first :: _ => trim (Message.content first)
      end in
    exists params later,
      World.calls (fst (getResponse JSON_parse JSON_stringify this tools w))
      = World.calls w ++ StartChat params :: later /\
      Forall (fun call => match call with StartChat _ => False | _ => True end) later /\
      StartChatParams.tools params = tools' /\
      (GenerativeModel.model this = "gemini-pro"
       \/ GenerativeModel.model this = "models/gemini-pro" ->
       StartChatParams.history params
       = history ++ [Content.mk "user" [text systemMessage]] /\
       StartChatParams.systemInstruction params = None) /\
      (GenerativeModel.model this <> "gemini-pro" ->
       GenerativeModel.model this <> "models/gemini-pro" ->
       StartChatParams.systemInstruction params
       = Some (Content.mk "user" [text systemMessage]) /\
       StartChatParams.history params = history).
Proof.
  intros this tools w history tools' Hh Ht systemMessage.
  assert (Hs : system_message_of (hd_error (World.messages w)) = systemMessage).
  { subst systemMessage. destruct (World.messages w) as [|first rest];
      [reflexivity | apply system_message_of_trim]. }
  rewrite getResponse_run, Hh, Ht. cbv zeta. rewrite Hs.
  set (params := StartChatParams.mk _ _ _).
  assert (Hparams :
    StartChatParams.tools params = tools' /\
    (GenerativeModel.model this = "gemini-pro"
     \/ GenerativeModel.model this = "models/gemini-pro" ->
     StartChatParams.history params
     = history ++ [Content.mk "user" [text systemMessage]] /\
     StartChatParams.systemInstruction params = None) /\
    (GenerativeModel.model this <> "gemini-pro" ->
     GenerativeModel.model this <> "models/gemini-pro" ->
     StartChatParams.systemInstruction params
     = Some (Content.mk "user" [text systemMessage]) /\
     StartChatParams.history params = history)).
  { subst params. cbn [StartChatParams.tools StartChatParams.history
                        StartChatParams.systemInstruction].
    split; [reflexivity|]. split.
    - intros Hm.
      assert (E : String.eqb (GenerativeModel.model this) "gemini-pro"
                  || String.eqb (GenerativeModel.model this) "models/gemini-pro" = true).
      { apply orb_true_iff. rewrite !String.eqb_eq. exact Hm. }
      rewrite E. split; reflexivity.
    - intros H1 H2.
      apply String.eqb_neq in H1. apply String.eqb_neq in H2.
      rewrite H1, H2. cbn [orb]. split; [reflexivity | apply app_nil_r]. }
  exists params.
  destruct (transformMessage_arg JSON_parse (last_message (World.messages w)))
    as [current|e].
  - exists [SendMessageStream (Content.parts current)].
    split; [|split; [repeat constructor | exact Hparams]].
    destruct (GenerativeModel.service this params (Content.parts current));
      reflexivity.
  - exists []. split; [reflexivity|]. split; [constructor | exact Hparams].
Qed.

(** C9, as the code has it.  After a call of [getResponse], the array the
    caller supplied has lost its first element and is otherwise unchanged
    (same remaining elements, same order) whenever the history was
    transcoded; an empty array stays empty; when transcoding the history
    throws, the array is as it was. *)
Theorem getResponse_shifts_messages :
  forall (this : GenerativeModel.t) (tools : option (list ToolInput.t)) (w : World.t),
    World.messages (fst (getResponse JSON_parse JSON_stringify this tools w)) =
    match transformMessages JSON_parse (slice_0_m1 (World.messages w)) with
    | Ok _ => tl (World.messages w)
    | Err _ => World.messages w
    end.
Proof.
  intros this tools w. rewrite getResponse_run.
  destruct (transformMessages JSON_parse (slice_0_m1 (World.messages w)));
    [|reflexivity].
  cbv zeta. destruct (transformTools _); [|reflexivity].
  destruct (transformMessage_arg JSON_parse _); [|reflexivity].
  destruct (GenerativeModel.service this _ _); reflexivity.
Qed.

(** C10.  When the list holds exactly one message that can be transcoded
    (and the tools can, and the service accepts the message),
    [getResponse] raises no error and uses the message twice: its trimmed
    content is the system instruction, and its transcoding is the current
    turn sent to the model; the transcoded prior history is empty, so the
    session history holds nothing but the system turn of the baseline
    variant. *)
Theorem getResponse_single_message :
  forall (this : GenerativeModel.t) (tools : option (list ToolInput.t))
         (m : Message.t) (calls : list ClientCall)
         (current : Content.t) (tools' : list Tool.t) (r : StreamResult.t),
    transformMessage JSON_parse m = Ok current ->
    transformTools (match tools with Some ts => ts | None => [] end) = Ok tools' ->
    let systemInstruction := Content.mk "user" [text (trim (Message.content m))] in
    let baseline :=
      String.eqb (GenerativeModel.model this) "gemini-pro"
      || String.eqb (GenerativeModel.model this) "models/gemini-pro" in
    let params :=
      StartChatParams.mk
        (if baseline then [systemInstruction] else [])
        (if baseline then None else Some systemInstruction)
        tools' in
    GenerativeModel.service this params (Content.parts current) = Ok r ->
    transformMessages JSON_parse (slice_0_m1 [m]) = Ok [] /\
    getResponse JSON_parse JSON_stringify this tools (World.mk [m] calls) =
    (World.mk [] (calls ++ [StartChat params; SendMessageStream (Content.parts current)]),
     Ok (CopilotKitResponse.mk (ReadableStream (start JSON_stringify r)))).
Proof.
  intros this tools m calls current tools' r Hc Ht systemInstruction baseline params Hr.
  split; [reflexivity|].
  rewrite getResponse_run.
  cbn [World.messages World.calls slice_0_m1 removelast hd_error tl last_message
       List.length Nat.sub nth_error transformMessage_arg].
  change (transformMessages JSON_parse []) with (@Ok (list Content.t) []).
  cbv zeta. rewrite Ht, system_message_of_trim, Hc.
  cbn [app]. fold baseline. unfold system_content. fold systemInstruction.
  fold params. rewrite Hr. reflexivity.
Qed.


End FacadeFacts.

(** ** The tool transcoder *)

Lemma map_result_ext {A B} (f g : A -> result B) (xs : list A) :
  (forall x, f x = g x) -> map_result f xs = map_result g xs.
Proof.
  intros H. induction xs as [|x xs IH]; simpl; [reflexivity|].
  now rewrite H, IH.
Qed.

Lemma update_field_absent (f : json -> result json) (key : string)
    (fields : list (string * json)) :
  assoc key fields = None -> update_field f key fields = Ok fields.
Proof.
  induction fields as [|[k x] rest IH]; simpl; [reflexivity|].
  destruct (String.eqb k key); [discriminate|].
  intros H. now rewrite (IH H).
Qed.

(** Updates of two different fields can be done in either order. *)
Lemma update_field_swap (f g : json -> result json) (k1 k2 : string)
    (fields : list (string * json)) :
  k1 <> k2 ->
  match update_field f k1 fields with
  | Err e => Err e
  | Ok _ =>
      try! fields1 <- update_field g k2 fields;
      update_field f k1 fields1
  end
  = (try! fields1 <- update_field f k1 fields;
     update_field g k2 fields1).
Proof.
  intros Hk. induction fields as [|[k x] rest IH]; [reflexivity|].
  cbn [update_field].
  destruct (String.eqb k k1) eqn:E1; destruct (String.eqb k k2) eqn:E2.
  - apply String.eqb_eq in E1. apply String.eqb_eq in E2. congruence.
  - destruct (f x) as [x'|e] eqn:Ef; cbn [rbind update_field];
      rewrite ?E1, ?E2; [|reflexivity].
    destruct (update_field g k2 rest) as [rest'|e]; cbn [rbind update_field];
      rewrite ?E1, ?Ef; reflexivity.
  - destruct (update_field f k1 rest) as [rest'|e] eqn:Ef; cbn [rbind update_field];
      rewrite ?E1, ?E2; [|reflexivity].
    destruct (g x) as [x'|e]; cbn [rbind update_field];
      rewrite ?E1, ?Ef; reflexivity.
  - destruct (update_field f k1 rest) as [rest'|e] eqn:Ef; cbn [rbind update_field] in *;
      rewrite ?E1, ?E2.
    + destruct (update_field g k2 rest) as [rest2|e] eqn:Eg;
        cbn [rbind update_field] in *; rewrite ?E1, ?E2.
      * rewrite IH.
        destruct (update_field g k2 rest') as [r4|e']; reflexivity.
      * rewrite <- IH. reflexivity.
    + reflexivity.
Qed.

Lemma transformProperties_visit (v : json) :
  match v with
  | JNull => Err TypeError
  | JObj fields =>
      match update_field transformProperties_type "type" fields with
      | Err e => Err e
      | Ok _ =>
          try! fields1 <-
            update_field
              (fun p => if truthy (Some p) then transformProperties p else Ok p)
              "properties" fields;
          try! fields2 <- update_field transformProperties_type "type" fields1;
          Ok (JObj fields2)
      end
  | _ => Ok v
  end
  = transformProperties_step transformProperties v.
Proof.
  destruct v as [| | | | |fields]; try reflexivity.
  unfold transformProperties_step.
  pose proof (update_field_swap transformProperties_type
                (fun p => if truthy (Some p) then transformProperties p else Ok p)
                fields (k1 := "type") (k2 := "properties")) as H.
  specialize (H ltac:(discriminate)).
  destruct (update_field transformProperties_type "type" fields) as [f1|e];
    cbn [rbind] in *.
  - destruct (update_field _ "properties" fields) as [f2|e]; cbn [rbind] in *.
    + rewrite H.
      destruct (update_field _ "properties" f1); reflexivity.
    + rewrite <- H. reflexivity.
  - reflexivity.
Qed.

(** [transformProperties] in the words of the source. *)
Lemma transformProperties_eq (props : json) :
  transformProperties props =
  match props with
  | JObj fields =>
      try! fields' <-
        map_result
          (fun kv =>
             try! v' <- transformProperties_step transformProperties (snd kv);
             Ok (fst kv, v'))
          fields;
      Ok (JObj fields')
  | JArr items =>
      try! items' <- map_result (transformProperties_step transformProperties) items;
      Ok (JArr items')
  | _ => Ok props
  end.
Proof.
  destruct props as [| | | |items|fields]; try reflexivity.
  - cbn [transformProperties]. f_equal.
    apply map_result_ext. intros v. apply transformProperties_visit.
  - cbn [transformProperties]. f_equal.
    apply map_result_ext. intros [k v]. cbn [fst snd].
    now rewrite <- transformProperties_visit.
Qed.

(** A schema in the usual shape, whose properties are not themselves named
    [type] or [properties], comes back as it went in: the walk starts at
    [parameters], not at [parameters.properties], and looks for [type] and
    [properties] one level too deep. *)
Lemma transformProperties_schema_unchanged (type_name : string)
    (properties : list (string * json)) :
  assoc "type" properties = None ->
  assoc "properties" properties = None ->
  transformProperties (JObj [("type", JStr type_name); ("properties", JObj properties)])
  = Ok (JObj [("type", JStr type_name); ("properties", JObj properties)]).
Proof.
  intros Ht Hp. cbn [transformProperties map_result fst snd rbind].
  rewrite (update_field_absent _ _ _ Ht). cbn [rbind].
  rewrite (update_field_absent _ _ _ Hp). cbn [rbind].
  rewrite (update_field_absent _ _ _ Ht). reflexivity.
Qed.

(** Called on the map of properties itself, the walk does upper-case the
    types, nested ones included. *)
Example transformProperties_on_property_map :
  transformProperties
    (JObj [("a", JObj [("type", JStr "string")]);
           ("b", JObj [("type", JStr "object");
                       ("properties", JObj [("c", JObj [("type", JStr "number")])])])])
  = Ok (JObj [("a", JObj [("type", JStr "STRING")]);
              ("b", JObj [("type", JStr "OBJECT");
                          ("properties", JObj [("c", JObj [("type", JStr "NUMBER")])])])]).
Proof. reflexivity. Qed.

(** Whatever the tool, a result of [transformTool] is one
    [functionDeclarations] entry with the name and the description of the
    tool. *)
Lemma transformTool_wraps (tool : ToolInput.t) (native : Tool.t) :
  transformTool tool = Ok native ->
  exists parameters,
    transformProperties (FunctionDeclaration.parameters (ToolInput.function tool))
    = Ok parameters /\
    native = Tool.mk
               [FunctionDeclaration.mk
                  (FunctionDeclaration.name (ToolInput.function tool))
                  (FunctionDeclaration.description (ToolInput.function tool))
                  parameters].
Proof.
  unfold transformTool.
  destruct (transformProperties _) as [parameters|e]; cbn [rbind]; [|discriminate].
  intros H. inversion H. exists parameters. split; reflexivity.
Qed.

(** C4, on the code.  For the tool [lookup_tool], whose parameters are
    [{type: "object", properties: {a: {type: "string"}}, required: ["a"]}],
    [transformTool] returns the single-element [functionDeclarations] with
    the name and the description, and with the parameters unchanged: the
    type of property [a] is still [string], not [STRING]. *)
Theorem transformTool_leaves_property_types :
  transformTool lookup_tool
  = Ok (Tool.mk [FunctionDeclaration.mk "lookup" "Look something up" object_schema])
  /\ transformTool lookup_tool
     <> Ok (Tool.mk [FunctionDeclaration.mk "lookup" "Look something up" object_schema_upper]).
Proof. split; [reflexivity | discriminate]. Qed.

(** ** Concrete runs *)

(** C1, on the code.  For the messages [system: S, user: Hi], the history
    handed to the chat session holds the transcoding of the first message,
    the one whose content is also the system instruction; the list without
    its first and last element is empty, and so is its transcoding. *)
Theorem getResponse_history_keeps_first_message :
  World.calls
    (fst (getResponse Host.parse Host.stringify
            (demo_model "gemini-1.5-pro-latest" no_output) None
            (World.mk system_user [])))
  = [StartChat
       (StartChatParams.mk
          [Content.mk "user" [text (system_prefix ++ "S")%string]]
          (Some (Content.mk "user" [text "S"]))
          []);
     SendMessageStream [text "Hi"]]
  /\ transformMessages Host.parse (tl (removelast system_user)) = Ok [].
Proof. split; reflexivity. Qed.

(** Against C5 as stated: in an assistant content, the two-character
    sequence backslash, n is not replaced. *)
Lemma transformMessage_backslash_n_not_replaced :
  transformMessage Host.parse (msg "assistant" "a\nb")
  = Ok (Content.mk "model" [text "a\nb"])
  /\ replace backslash_n newline "a\nb" = ("a" ++ newline ++ "b")%string
  /\ transformMessage Host.parse (msg "assistant" "a\nb")
     <> Ok (Content.mk "model" [text (replace backslash_n newline "a\nb")]).
Proof. split; [reflexivity | split; [reflexivity | discriminate]]. Qed.

(** Against C6 as stated: an empty fragment gets a chunk. *)
Lemma start_empty_fragment_emits_chunk :
  Controller.queue
    (ReadableStream (start Host.stringify (StreamResult.mk [Ok ""] (Ok None))))
  = [ChunkRecord
       (ChatCompletionChunk.mk [Choice.mk (Delta.mk "assistant" "" None)]);
     EndRecord]
  /\ Controller.queue
       (ReadableStream (start Host.stringify (StreamResult.mk [Ok ""] (Ok None))))
     <> map text_record (filter (fun f => negb (String.eqb f "")) [""]) ++ [EndRecord].
Proof. split; [reflexivity | discriminate]. Qed.

(** Against C3 as stated: in the arguments of a tool call the escape
    pattern of the text content, the two characters backslash, n, is not
    normalized; the arguments are serialized with the sequence in them. *)
Lemma start_backslash_n_arguments_not_normalized :
  ReadableStream
    (start Host.stringify (StreamResult.mk [] (Ok (Some [lookup_call_backslash_n]))))
  = Controller.mk
      [ChunkRecord
         (ChatCompletionChunk.mk
            [Choice.mk
               (Delta.mk "assistant" ""
                  (Some [ToolCall.mk 0 "0"
                           (ToolCallFunction.mk "lookup"
                              (Host.stringify (JObj [("q", JStr "x\ny")])))]))]);
       EndRecord]
      Closed
  /\ normalize_backslash_n (JObj [("q", JStr "x\ny")])
     = JObj [("q", JStr ("x" ++ newline ++ "y"))]
  /\ Host.stringify (JObj [("q", JStr "x\ny")])
     = ("{" ++ Host.quoted "q" ++ ":" ++ Host.quote ++ "x\\ny" ++ Host.quote ++ "}")%string
  /\ Host.stringify (normalize_backslash_n (JObj [("q", JStr "x\ny")]))
     = ("{" ++ Host.quoted "q" ++ ":" ++ Host.quote ++ "x\ny" ++ Host.quote ++ "}")%string
  /\ Host.stringify (JObj [("q", JStr "x\ny")])
     <> Host.stringify (normalize_backslash_n (JObj [("q", JStr "x\ny")])).
Proof. repeat split; try reflexivity. discriminate. Qed.


(** Against C9 as stated: after the call the array is one element shorter. *)
Lemma getResponse_messages_not_preserved :
  World.messages
    (fst (getResponse Host.parse Host.stringify (demo_model "gemini-pro" no_output) None
            (World.mk system_user [])))
  = [msg "user" "Hi"]
  /\ World.messages
       (fst (getResponse Host.parse Host.stringify (demo_model "gemini-pro" no_output)
               None (World.mk system_user [])))
     <> system_user.
Proof. split; [reflexivity | discriminate]. Qed.

(** ** Instances of the conditional statements *)

Lemma transformMessage_assistant_text_witness :
  Message.role escaped_twice = "assistant"
  /\ Message.function_call escaped_twice = None
  /\ exists t,
       transformMessage Host.parse escaped_twice = Ok (Content.mk "model" [text t])
       /\ t = ("a" ++ newline ++ "b\\nc")%string.
Proof.
  split; [reflexivity|]. split; [reflexivity|].
  destruct (transformMessage_assistant_text Host.parse escaped_twice eq_refl eq_refl)
    as [t [Ht [Hleft _]]].
  exists t. split; [exact Ht|].
  apply (Hleft "a" "b\\nc").
  - reflexivity.
  - intros pre' post' H. destruct pre' as [|c pre'].
    + discriminate H.
    + simpl. lia.
Defined.

Lemma getResponse_system_instruction_placement_witness :
  transformMessages Host.parse (slice_0_m1 system_user)
  = Ok [Content.mk "user" [text (system_prefix ++ "S")%string]]
  /\ transformTools [lookup_tool]
     = Ok [Tool.mk [FunctionDeclaration.mk "lookup" "Look something up" object_schema]]
  /\ exists params later,
       World.calls
         (fst (getResponse Host.parse Host.stringify (demo_model "gemini-pro" no_output)
                 (Some [lookup_tool]) (World.mk system_user [])))
       = StartChat params :: later
       /\ StartChatParams.history params
          = [Content.mk "user" [text (system_prefix ++ "S")%string];
             Content.mk "user" [text "S"]]
       /\ StartChatParams.systemInstruction params = None.
Proof.
  split; [reflexivity|]. split; [reflexivity|].
  destruct (getResponse_system_instruction_placement Host.parse Host.stringify
              (demo_model "gemini-pro" no_output) (Some [lookup_tool])
              (World.mk system_user []) eq_refl eq_refl)
    as [params [later [Hc [_ [_ [Hb _]]]]]].
  exists params, later. split; [exact Hc|].
  apply Hb. left. reflexivity.
Defined.

Lemma getResponse_single_message_witness :
  transformMessage Host.parse (msg "user" " Hi ") = Ok (Content.mk "user" [text " Hi "])
  /\ transformTools [] = Ok []
  /\ getResponse Host.parse Host.stringify (demo_model "gemini-pro" no_output) None
       (World.mk [msg "user" " Hi "] [])
     = (World.mk []
          [StartChat (StartChatParams.mk [Content.mk "user" [text "Hi"]] None []);
           SendMessageStream [text " Hi "]],
        Ok (CopilotKitResponse.mk (ReadableStream (start Host.stringify no_output)))).
Proof.
  split; [reflexivity|]. split; [reflexivity|].
  exact (proj2 (getResponse_single_message Host.parse Host.stringify
                  (demo_model "gemini-pro" no_output) None (msg "user" " Hi ") []
                  eq_refl eq_refl eq_refl)).
Defined.


(** The two outcomes of a last message with an unrecognized role: after a
    history the client accepts, the invalid-role error; after a history
    that starts with an assistant turn, which the client refuses, the
    error of the client.  In both the session has been asked for and
    nothing is sent. *)
Example last_message_unrecognized_role :
  getResponse_checked Host.parse Host.stringify user_turn_first
    (demo_model "gemini-pro" no_output) None
    (World.mk [msg "system" "S"; msg "tool" "x"] [])
  = (World.mk [msg "tool" "x"]
       [StartChat
          (StartChatParams.mk
             [Content.mk "user" [text (system_prefix ++ "S")];
              Content.mk "user" [text "S"]]
             None [])],
     Err InvalidMessageRole)
  /\ getResponse_checked Host.parse Host.stringify user_turn_first
       (demo_model "gemini-pro" no_output) None
       (World.mk [msg "assistant" "A"; msg "tool" "x"] [])
     = (World.mk [msg "tool" "x"]
          [StartChat
             (StartChatParams.mk
                [Content.mk "model" [text "A"]; Content.mk "user" [text "A"]]
                None [])],
        Err UpstreamError).
Proof. split; reflexivity. Qed.

(** ** The examples of the specification *)

Example function_content_parsed :
  transformMessage Host.parse (Message.mk "function" Host.text_a1 (Some "f") None)
  = Ok (Content.mk "function"
          [functionResponse (Some "f") (Some "f") (JObj [("a", JNum 1)])]).
Proof. reflexivity. Qed.

Example function_content_plain :
  transformMessage Host.parse (Message.mk "function" "plain" (Some "f") None)
  = Ok (Content.mk "function" [functionResponse (Some "f") (Some "f") (JStr "plain")]).
Proof. reflexivity. Qed.

Example assistant_function_call :
  transformMessage Host.parse
    (Message.mk "assistant" "" None
       (Some (FunctionCall.mk (Some "f") (Some Host.text_x1))))
  = Ok (Content.mk "model" [functionCall (Some "f") (JObj [("x", JNum 1)])]).
Proof. reflexivity. Qed.

Example stream_hel_lo :
  snd (getResponse Host.parse Host.stringify
         (demo_model "gemini-pro" (StreamResult.mk [Ok "Hel"; Ok "lo"] (Ok None)))
         None (World.mk system_user []))
  = Ok (CopilotKitResponse.mk
          (Controller.mk [text_record "Hel"; text_record "lo"; EndRecord] Closed)).
Proof. reflexivity. Qed.

Example stream_lookup_call :
  ReadableStream
    (start Host.stringify
       (StreamResult.mk []
          (Ok (Some [ModelFunctionCall.mk "lookup" (JObj [("q", JStr "x")])]))))
  = Controller.mk
      [ChunkRecord
         (ChatCompletionChunk.mk
            [Choice.mk
               (Delta.mk "assistant" ""
                  (Some [ToolCall.mk 0 "0" (ToolCallFunction.mk "lookup" Host.text_qx)]))]);
       EndRecord]
      Closed.
Proof. reflexivity. Qed.

(** A failing upstream leaves the stream errored, without end marker. *)
Example stream_upstream_failure :
  ReadableStream
    (start Host.stringify (StreamResult.mk [Ok "Hel"; Err UpstreamError; Ok "lo"] (Ok None)))
  = Controller.mk [text_record "Hel"] (Errored UpstreamError).
Proof. reflexivity. Qed.

(** An argument named [hasOwnProperty] hides the method the loop of
    [replaceNewlinesInObject] calls: the producer throws, no tool-call
    chunk and no end marker are written, and the stream ends errored. *)
Example stream_argument_named_hasOwnProperty :
  ReadableStream
    (start Host.stringify (StreamResult.mk [Ok "Hel"] (Ok (Some [shadowing_call]))))
  = Controller.mk [text_record "Hel"] (Errored TypeError).
Proof. reflexivity. Qed.

(** An argument named [__proto__] is not copied. *)
Example argument_named_proto :
  replaceNewlinesInObject (JObj [("__proto__", JStr "x"); ("q", JStr "y")])
  = Ok (JObj [("q", JStr "y")]).
Proof. reflexivity. Qed.

(** Arguments of a tool call: each three-character sequence becomes a
    newline, which the serialization writes as backslash, n. *)
Example arguments_newlines :
  (try! args <- replaceNewlinesInObject (JObj [("q", JStr "x\\ny\\nz")]);
   Ok (Host.stringify args))
  = Ok ("{" ++ Host.quoted "q" ++ ":" ++ Host.quote ++ "x\ny\nz" ++ Host.quote ++ "}")%string.
Proof. reflexivity. Qed.

(** * Further properties of the adapter *)

(** ** Maps that may throw *)

Lemma map_result_app {A B} (f : A -> result B) (xs ys : list A) :
  map_result f (xs ++ ys) =
  (try! xs' <- map_result f xs;
   try! ys' <- map_result f ys;
   Ok (xs' ++ ys')).
Proof.
  induction xs as [|x xs IH]; cbn [app map_result].
  - destruct (map_result f ys); reflexivity.
  - destruct (f x) as [y|e]; cbn [rbind]; [|reflexivity].
    rewrite IH. destruct (map_result f xs) as [xs'|e]; cbn [rbind]; [|reflexivity].
    destruct (map_result f ys); reflexivity.
Qed.

Lemma map_result_Forall2 {A B} (f : A -> result B) (xs : list A) (ys : list B) :
  map_result f xs = Ok ys <-> Forall2 (fun x y => f x = Ok y) xs ys.
Proof.
  revert ys. induction xs as [|x xs IH]; intros ys; cbn [map_result].
  - split; intros H; [inversion H; constructor | inversion H; reflexivity].
  - split.
    + destruct (f x) as [y|e] eqn:Ef; cbn [rbind]; [|discriminate].
      destruct (map_result f xs) as [ys'|e]; cbn [rbind]; [|discriminate].
      intros H. inversion H; subst. constructor; [exact Ef | now apply IH].
    + intros H. inversion H as [|x' y xs' ys' Hxy Hrest]; subst.
      rewrite Hxy. cbn [rbind].
      apply IH in Hrest. rewrite Hrest. reflexivity.
Qed.

Lemma map_result_error {A B} (f : A -> result B) (xs : list A) (e : error) :
  map_result f xs = Err e -> exists x, In x xs /\ f x = Err e.
Proof.
  induction xs as [|x xs IH]; cbn [map_result]; [discriminate|].
  destruct (f x) as [y|e'] eqn:Ef; cbn [rbind].
  - destruct (map_result f xs) as [ys|e']; cbn [rbind]; [discriminate|].
    intros H. inversion H; subst.
    destruct (IH eq_refl) as [x' [Hin Hx']]. exists x'. split; [now right | exact Hx'].
  - intros H. inversion H; subst. exists x. split; [now left | exact Ef].
Qed.

(** ** Normalization of the arguments of a tool call *)

Lemma replace_global_nil (pat rep : string) (skip : nat) :
  replace_global pat rep skip EmptyString = EmptyString.
Proof. reflexivity. Qed.

Lemma replace_global_skip (pat rep : string) (skip : nat) (s : string) :
  replace_global pat rep skip s = replace_global pat rep 0 (drop skip s).
Proof.
  revert skip. induction s as [|c s IH]; intros [|k]; try reflexivity.
  cbn [replace_global drop]. apply IH.
Qed.

Lemma replace_global_match (pat rep post : string) :
  pat <> EmptyString ->
  replace_global pat rep 0 (pat ++ post) = (rep ++ replace_global pat rep 0 post)%string.
Proof.
  intros Hp. destruct pat as [|c pat]; [congruence|].
  change (String c pat ++ post)%string with (String c (pat ++ post)).
  cbn [replace_global].
  change (String c (pat ++ post)) with (String c pat ++ post)%string.
  rewrite prefix_app. f_equal.
  replace (String.length (String c pat) - 1) with (String.length pat)
    by (cbn [String.length]; lia).
  rewrite replace_global_skip. now rewrite drop_app.
Qed.

Lemma replace_global_copy (pat rep : string) (c : ascii) (s : string) :
  prefix pat (String c s) = false ->
  replace_global pat rep 0 (String c s) = String c (replace_global pat rep 0 s).
Proof. intros H. cbn [replace_global]. now rewrite H. Qed.

Lemma replace_global_absent (pat rep s : string) :
  (forall pre post, ~ occurs_at pat s pre post) ->
  replace_global pat rep 0 s = s.
Proof.
  unfold occurs_at. induction s as [|c s IH]; intros Hno; [reflexivity|].
  rewrite replace_global_copy.
  - f_equal. apply IH. intros pre post H.
    apply (Hno (String c pre) post). simpl. now rewrite H.
  - destruct (prefix pat (String c s)) eqn:Hp; [|reflexivity].
    apply prefix_occurs in Hp. destruct Hp as [post Hp].
    now elim (Hno EmptyString post).
Qed.

Lemma replace_global_leftmost (pat rep s pre post : string) :
  pat <> EmptyString ->
  occurs_at pat s pre post ->
  leftmost pat s pre ->
  replace_global pat rep 0 s = (pre ++ rep ++ replace_global pat rep 0 post)%string.
Proof.
  intros Hp. unfold occurs_at, leftmost. revert s.
  induction pre as [|c pre IH]; intros s Hs Hmin; subst s.
  - change (EmptyString ++ pat ++ post)%string with (pat ++ post)%string.
    now apply replace_global_match.
  - change (String c pre ++ pat ++ post)%string with (String c (pre ++ pat ++ post)).
    rewrite replace_global_copy.
    + change (String c pre ++ rep ++ replace_global pat rep 0 post)%string
        with (String c (pre ++ rep ++ replace_global pat rep 0 post)).
      f_equal. apply IH; [reflexivity|].
      intros pre' post' H'.
      specialize (Hmin (String c pre') post'). simpl in Hmin.
      rewrite H' in Hmin. specialize (Hmin eq_refl). lia.
    + destruct (prefix pat (String c (pre ++ pat ++ post))) eqn:E; [|reflexivity].
      apply prefix_occurs in E. destruct E as [post' E].
      specialize (Hmin EmptyString post' E). simpl in Hmin. lia.
Qed.

(** The first character of a normalized text: a newline where the
    sequence started, the first character of the text otherwise. *)
Lemma replace_global_head (s : string) (a : ascii) (t : string) :
  replace_global escaped_newline newline 0 s = String a t ->
  (prefix escaped_newline s = true /\ a = ascii_of_nat 10) \/
  (exists s', s = String a s' /\ prefix escaped_newline s = false
              /\ t = replace_global escaped_newline newline 0 s').
Proof.
  destruct s as [|c s]; [discriminate|].
  destruct (prefix escaped_newline (String c s)) eqn:E.
  - intros H. left. split; [reflexivity|].
    apply prefix_occurs in E. destruct E as [post E]. rewrite E in H.
    rewrite replace_global_match in H by discriminate.
    now inversion H.
  - rewrite replace_global_copy by exact E. intros H. inversion H; subst.
    right. exists s. auto.
Qed.

Lemma replace_global_normal (skip : nat) (s pre post : string) :
  ~ occurs_at escaped_newline (replace_global escaped_newline newline skip s) pre post.
Proof.
  unfold occurs_at. revert skip pre.
  induction s as [|c s IH]; intros skip pre H.
  - destruct pre; discriminate H.
  - destruct skip as [|k]; [|exact (IH k pre H)].
    cbn [replace_global] in H.
    destruct (prefix escaped_newline (String c s)) eqn:E.
    + destruct pre as [|p pre]; [discriminate H|].
      inversion H as [[Hp Hrest]]. exact (IH _ pre Hrest).
    + destruct pre as [|p pre].
      * inversion H as [[Hc Hrest]]. subst c.
        apply replace_global_head in Hrest.
        destruct Hrest as [[_ Hn]|[s1 [Hs [_ Hrest]]]]; [discriminate Hn|].
        symmetry in Hrest. apply replace_global_head in Hrest.
        destruct Hrest as [[_ Hn]|[s2 [Hs2 _]]]; [discriminate Hn|].
        subst s s1.
        change (String "\" (String "\" (String "n" s2)))
          with (escaped_newline ++ s2)%string in E.
        rewrite prefix_app in E. discriminate E.
      * inversion H as [[Hp Hrest]]. exact (IH 0 pre Hrest).
Qed.

Lemma replaceNewlinesInObject_eq (v : json) :
  replaceNewlinesInObject v =
  match v with
  | JStr s => Ok (JStr (replace_global escaped_newline newline 0 s))
  | JArr items =>
      try! items' <- map_result replaceNewlinesInObject items;
      Ok (JArr items')
  | JObj fields =>
      match assoc "hasOwnProperty" fields with
      | Some _ => Err TypeError
      | None =>
          try! fields' <-
            map_result
              (fun kv => try! x <- replaceNewlinesInObject (snd kv); Ok (fst kv, x))
              fields;
          Ok (JObj (filter (fun kv => negb (String.eqb (fst kv) "__proto__")) fields'))
      end
  | _ => Ok v
  end.
Proof. destruct v; reflexivity. Qed.

Lemma length_append (s t : string) :
  String.length (s ++ t) = String.length s + String.length t.
Proof. induction s as [|c s IH]; simpl; auto. Qed.

(** A pattern does not occur in a text, or it has a leftmost occurrence. *)
Lemma occurrence_cases (pat s : string) :
  (forall pre post, ~ occurs_at pat s pre post) \/
  (exists pre post, occurs_at pat s pre post /\ leftmost pat s pre).
Proof.
  unfold occurs_at, leftmost.
  assert (Hhead : forall s0, prefix pat s0 = true ->
            exists pre post, s0 = (pre ++ pat ++ post)%string /\
              forall pre' post', s0 = (pre' ++ pat ++ post')%string ->
                String.length pre <= String.length pre').
  { intros s0 E. apply prefix_occurs in E. destruct E as [post E].
    exists EmptyString, post. split; [exact E | intros; simpl; lia]. }
  assert (Hnot : forall s0 post, prefix pat s0 = false ->
            s0 <> (EmptyString ++ pat ++ post)%string).
  { intros s0 post E H. simpl in H. rewrite H, prefix_app in E. discriminate E. }
  induction s as [|c s IH].
  - destruct (prefix pat EmptyString) eqn:E; [right; now apply Hhead|].
    left. intros [|p pre] post H; [exact (Hnot _ _ E H) | discriminate H].
  - destruct (prefix pat (String c s)) eqn:E; [right; now apply Hhead|].
    destruct IH as [Hno | [pre [post [Ho Hl]]]].
    + left. intros [|p pre] post H; [exact (Hnot _ _ E H)|].
      simpl in H. inversion H as [[Hc Hs]]. exact (Hno pre post Hs).
    + right. exists (String c pre), post. split.
      * simpl. now rewrite <- Ho.
      * intros [|p pre'] post' H; [elim (Hnot _ _ E H)|].
        simpl in H. inversion H as [[Hc Hs]].
        specialize (Hl pre' post' Hs). simpl. lia.
Qed.

Lemma append_same_length (pre pre' x x' : string) :
  (pre ++ x)%string = (pre' ++ x')%string ->
  String.length pre = String.length pre' ->
  pre = pre' /\ x = x'.
Proof.
  revert pre'. induction pre as [|c pre IH]; intros [|c' pre'] H Hlen;
    try discriminate Hlen.
  - now split.
  - simpl in H, Hlen. injection H as -> H. injection Hlen as Hlen.
    destruct (IH pre' H Hlen) as [-> ->]. now split.
Qed.

(** The leftmost occurrence is one occurrence. *)
Lemma leftmost_unique (pat s pre post pre' post' : string) :
  occurs_at pat s pre post -> leftmost pat s pre ->
  occurs_at pat s pre' post' -> leftmost pat s pre' ->
  pre = pre' /\ post = post'.
Proof.
  intros Ho Hl Ho' Hl'.
  pose proof (Hl _ _ Ho') as H1. pose proof (Hl' _ _ Ho) as H2.
  unfold occurs_at in Ho, Ho'. rewrite Ho in Ho'.
  destruct (append_same_length _ _ _ _ Ho' ltac:(lia)) as [-> H].
  split; [reflexivity|].
  destruct (append_same_length _ _ _ _ H eq_refl) as [_ ->]. reflexivity.
Qed.

(** [all_replaced] and [newlines_replaced] are functional: they say what
    the result is. *)
Lemma all_replaced_functional (pat rep s t t' : string) :
  all_replaced pat rep s t -> all_replaced pat rep s t' -> t = t'.
Proof.
  intros H. revert t'.
  induction H as [s Hno | s pre post t Ho Hl _ IH]; intros t' H'.
  - inversion H' as [? _ | ? pre' post' u Ho' _ _]; subst; [reflexivity|].
    elim (Hno _ _ Ho').
  - inversion H' as [? Hno | ? pre' post' u Ho' Hl' Hu]; subst.
    + elim (Hno _ _ Ho).
    + destruct (leftmost_unique Ho Hl Ho' Hl') as [<- <-].
      now rewrite (IH _ Hu).
Qed.

Lemma newlines_replaced_functional :
  forall v v1 v2 : json, newlines_replaced v v1 -> newlines_replaced v v2 -> v1 = v2.
Proof.
  induction v as [| | |s|items IH|fields IH] using json_induction;
    intros v1 v2 Ha Hb; inversion Ha; inversion Hb; subst; try reflexivity.
  - f_equal. eapply all_replaced_functional; eassumption.
  - f_equal. clear Ha Hb.
    match goal with
    | H1 : Forall2 _ items ?l1, H2 : Forall2 _ items ?l2 |- ?l1 = ?l2 =>
        revert IH l2 H2; induction H1 as [|x y l l' Hxy _ IHl]; intros IH l2 H2;
          inversion H2; subst; [reflexivity|]
    end.
    inversion IH; subst. f_equal; auto.
  - f_equal. clear Ha Hb.
    match goal with
    | H1 : Forall2 _ fields ?l1, H2 : Forall2 _ fields ?l2 |- ?l1 = ?l2 =>
        revert IH l2 H2; induction H1 as [|x y l l' [Hk Hxy] _ IHl]; intros IH l2 H2;
          inversion H2 as [|? y2 ? ? [Hk2 Hxy2] ?]; subst; [reflexivity|]
    end.
    inversion IH; subst. f_equal; [|auto].
    destruct y, y2; cbn [fst snd] in *. f_equal; [congruence | auto].
Qed.

(** [replace_global], the replacement with a global regular expression,
    replaces every occurrence. *)
Lemma replace_global_all_replaced (pat rep : string) :
  pat <> EmptyString ->
  forall s, all_replaced pat rep s (replace_global pat rep 0 s).
Proof.
  intros Hp s.
  remember (String.length s) as n eqn:Hn. revert s Hn.
  induction n as [n IH] using lt_wf_ind. intros s Hn.
  destruct (occurrence_cases pat s) as [Hno | [pre [post [Ho Hl]]]].
  - rewrite replace_global_absent by exact Hno. now constructor.
  - rewrite (@replace_global_leftmost pat rep s pre post Hp Ho Hl).
    apply replaced_leftmost with (post := post); [exact Ho | exact Hl |].
    apply (IH (String.length post)); [|reflexivity].
    subst n. rewrite Ho, !length_append.
    destruct pat as [|c pat]; [congruence|]. simpl. lia.
Qed.

Lemma normalized_arr (items : list json) :
  normalized (JArr items) <-> Forall normalized items.
Proof.
  induction items as [|x rest IH].
  - split; [constructor | intros _; exact I].
  - change (normalized (JArr (x :: rest)))
      with (normalized x /\ normalized (JArr rest)).
    rewrite IH. split.
    + intros [Hx Hr]. now constructor.
    + intros H. inversion H; subst. now split.
Qed.

Lemma normalized_obj (fields : list (string * json)) :
  normalized (JObj fields) <-> Forall (fun kv => normalized (snd kv)) fields.
Proof.
  induction fields as [|kv rest IH].
  - split; [constructor | intros _; exact I].
  - change (normalized (JObj (kv :: rest)))
      with (normalized (snd kv) /\ normalized (JObj rest)).
    rewrite IH. split.
    + intros [Hx Hr]. now constructor.
    + intros H. inversion H; subst. now split.
Qed.

Lemma plain_keys_arr (items : list json) :
  plain_keys (JArr items) = true <-> Forall (fun x => plain_keys x = true) items.
Proof.
  induction items as [|x rest IH].
  - split; [constructor | reflexivity].
  - change (plain_keys (JArr (x :: rest)))
      with (plain_keys x && plain_keys (JArr rest)).
    rewrite andb_true_iff, IH. split.
    + intros [Hx Hr]. now constructor.
    + intros H. inversion H; subst. now split.
Qed.

Lemma plain_keys_values (fields : list (string * json)) :
  (fix all (l : list (string * json)) : bool :=
     match l with
     | [] => true
     | kv :: rest => plain_keys (snd kv) && all rest
     end) fields = true
  <-> Forall (fun kv => plain_keys (snd kv) = true) fields.
Proof.
  induction fields as [|kv rest IH].
  - split; [constructor | reflexivity].
  - rewrite andb_true_iff, IH. split.
    + intros [Hx Hr]. now constructor.
    + intros H. inversion H; subst. now split.
Qed.

Lemma plain_keys_obj (fields : list (string * json)) :
  plain_keys (JObj fields) = true <->
  assoc "hasOwnProperty" fields = None /\
  assoc "__proto__" fields = None /\
  Forall (fun kv => plain_keys (snd kv) = true) fields.
Proof.
  rewrite <- plain_keys_values. cbn [plain_keys].
  destruct (assoc "hasOwnProperty" fields), (assoc "__proto__" fields);
    split; try discriminate; try tauto.
  - intros [H _]. discriminate H.
  - intros [H _]. discriminate H.
  - intros [_ [H _]]. discriminate H.
Qed.

Lemma assoc_None (key : string) (fields : list (string * json)) :
  assoc key fields = None <->
  Forall (fun kv => String.eqb (fst kv) key = false) fields.
Proof.
  induction fields as [|[k x] rest IH]; cbn [assoc].
  - split; [constructor | reflexivity].
  - destruct (String.eqb k key) eqn:E.
    + split; [discriminate|]. intros H. inversion H; subst.
      cbn [fst] in *. congruence.
    + rewrite IH. split.
      * intros H. now constructor.
      * intros H. now inversion H.
Qed.

(** The loop over the fields of an object, without the test and the
    assignment: same keys in the same order, each value transformed. *)
Lemma map_fields_Forall2 (f : json -> result json)
    (fields fields' : list (string * json)) :
  map_result (fun kv => try! x <- f (snd kv); Ok (fst kv, x)) fields = Ok fields' <->
  Forall2 (fun kv kv' => fst kv = fst kv' /\ f (snd kv) = Ok (snd kv')) fields fields'.
Proof.
  rewrite map_result_Forall2. split; apply Forall2_impl; intros [k x] [k' x'];
    cbn [fst snd].
  - destruct (f x) as [y|e]; cbn [rbind]; [|discriminate].
    intros H. inversion H; subst. auto.
  - intros [-> ->]. reflexivity.
Qed.

Lemma Forall2_same_keys (R : json -> json -> Prop) (key : string)
    (fields fields' : list (string * json)) :
  Forall2 (fun kv kv' => fst kv = fst kv' /\ R (snd kv) (snd kv')) fields fields' ->
  assoc key fields = None -> assoc key fields' = None.
Proof.
  intros H. rewrite !assoc_None. induction H as [|kv kv' l l' [Hk _] _ IH].
  - constructor.
  - intros Hf. inversion Hf; subst. constructor; [congruence | auto].
Qed.

Lemma filter_proto_plain (fields : list (string * json)) :
  assoc "__proto__" fields = None ->
  filter (fun kv => negb (String.eqb (fst kv) "__proto__")) fields = fields.
Proof.
  rewrite assoc_None. intros H. apply forallb_filter_id.
  apply forallb_forall. rewrite Forall_forall in H.
  intros kv Hin. now rewrite (H kv Hin).
Qed.

(** Whatever the keys, a result of [replaceNewlinesInObject] holds the
    sequence in no string value. *)
Lemma replaceNewlinesInObject_normal :
  forall v v' : json, replaceNewlinesInObject v = Ok v' -> normalized v'.
Proof.
  induction v as [| | |s|items IH|fields IH] using json_induction;
    intros v'; rewrite replaceNewlinesInObject_eq; intros H.
  - inversion H; exact I.
  - inversion H; exact I.
  - inversion H; exact I.
  - inversion H. intros pre post. apply replace_global_normal.
  - destruct (map_result replaceNewlinesInObject items) as [items'|e] eqn:E;
      cbn [rbind] in H; [|discriminate H].
    injection H as <-. apply normalized_arr.
    apply map_result_Forall2 in E.
    induction E as [|x y l l' Hxy _ IHl]; [constructor|].
    inversion IH; subst. constructor; auto.
  - destruct (assoc "hasOwnProperty" fields); [discriminate H|].
    match type of H with
    | (try! _ <- ?m; _) = _ => destruct m as [fields'|e] eqn:E
    end; cbn [rbind] in H; [|discriminate H].
    injection H as <-. apply normalized_obj.
    apply map_fields_Forall2 in E.
    assert (Hall : Forall (fun kv => normalized (snd kv)) fields').
    { induction E as [|kv kv' l l' [_ Hxy] _ IHl]; [constructor|].
      inversion IH; subst. constructor; auto. }
    rewrite Forall_forall in *. intros kv Hin.
    apply filter_In in Hin. now apply Hall.
Qed.

(** The only exception of [replaceNewlinesInObject] is the one of calling
    a value that is not a function. *)
Lemma replaceNewlinesInObject_error :
  forall (v : json) (e : error), replaceNewlinesInObject v = Err e -> e = TypeError.
Proof.
  induction v as [| | |s|items IH|fields IH] using json_induction;
    intros e; rewrite replaceNewlinesInObject_eq; intros H; try discriminate H.
  - destruct (map_result replaceNewlinesInObject items) as [items'|e'] eqn:E;
      cbn [rbind] in H; [discriminate H|].
    inversion H; subst e'.
    apply map_result_error in E. destruct E as [x [Hin Hx]].
    rewrite Forall_forall in IH. exact (IH x Hin e Hx).
  - destruct (assoc "hasOwnProperty" fields); [now inversion H|].
    match type of H with
    | (try! _ <- ?m; _) = _ => destruct m as [fields'|e'] eqn:E
    end; cbn [rbind] in H; [discriminate H|].
    inversion H; subst e'.
    apply map_result_error in E. destruct E as [kv [Hin Hx]].
    rewrite Forall_forall in IH.
    destruct (replaceNewlinesInObject (snd kv)) as [x|e'] eqn:Ex;
      cbn [rbind] in Hx; [discriminate Hx|].
    inversion Hx; subst e'. exact (IH kv Hin e Ex).
Qed.

(** On a value whose objects have no key [hasOwnProperty] and no key
    [__proto__], [replaceNewlinesInObject] returns, and what it returns is
    the value with the sequences replaced. *)
Lemma replaceNewlinesInObject_plain :
  forall v : json,
    plain_keys v = true ->
    exists v',
      replaceNewlinesInObject v = Ok v' /\
      newlines_replaced v v' /\
      plain_keys v' = true.
Proof.
  induction v as [| | |s|items IH|fields IH] using json_induction; intros Hp.
  - exists JNull. repeat split. constructor.
  - exists (JBool b). repeat split. constructor.
  - exists (JNum z). repeat split. constructor.
  - exists (JStr (replace_global escaped_newline newline 0 s)). repeat split.
    constructor. apply replace_global_all_replaced. discriminate.
  - apply plain_keys_arr in Hp.
    assert (H : exists items',
               map_result replaceNewlinesInObject items = Ok items' /\
               Forall2 newlines_replaced items items' /\
               Forall (fun x => plain_keys x = true) items').
    { induction items as [|x rest IHl].
      - exists []. repeat split; constructor.
      - inversion IH as [|? ? Hx Hrest]; subst. inversion Hp as [|? ? Px Prest]; subst.
        destruct (Hx Px) as [x' [Ex [Rx Px']]].
        destruct (IHl Hrest Prest) as [rest' [Er [Rr Pr']]].
        exists (x' :: rest'). cbn [map_result]. rewrite Ex, Er.
        repeat split; now constructor. }
    destruct H as [items' [E [R P]]].
    exists (JArr items'). rewrite replaceNewlinesInObject_eq, E.
    repeat split; [now constructor | now apply plain_keys_arr].
  - apply plain_keys_obj in Hp. destruct Hp as [Ho [Hq Hp]].
    assert (H : exists fields',
               Forall2
                 (fun kv kv' =>
                    fst kv = fst kv' /\ replaceNewlinesInObject (snd kv) = Ok (snd kv'))
                 fields fields' /\
               Forall2
                 (fun kv kv' => fst kv = fst kv' /\ newlines_replaced (snd kv) (snd kv'))
                 fields fields' /\
               Forall (fun kv => plain_keys (snd kv) = true) fields').
    { clear Ho Hq. induction fields as [|[k x] rest IHl].
      - exists []. repeat split; constructor.
      - inversion IH as [|? ? Hx Hrest]; subst. inversion Hp as [|? ? Px Prest]; subst.
        cbn [snd] in Hx, Px.
        destruct (Hx Px) as [x' [Ex [Rx Px']]].
        destruct (IHl Hrest Prest) as [rest' [Er [Rr Pr']]].
        exists ((k, x') :: rest'). repeat split; constructor; cbn [fst snd]; auto. }
    destruct H as [fields' [E [R P]]].
    exists (JObj fields'). rewrite replaceNewlinesInObject_eq, Ho.
    apply map_fields_Forall2 in E. rewrite E. cbn [rbind].
    rewrite filter_proto_plain by exact (@Forall2_same_keys _ "__proto__" _ _ R Hq).
    repeat split; [now constructor|].
    apply plain_keys_obj. repeat split;
      [exact (@Forall2_same_keys _ "hasOwnProperty" _ _ R Ho)
      | exact (@Forall2_same_keys _ "__proto__" _ _ R Hq)
      | exact P].
Qed.

(** Such a value that holds the sequence nowhere is returned as it is. *)
Lemma replaceNewlinesInObject_fixed (v : json) :
  plain_keys v = true -> normalized v -> replaceNewlinesInObject v = Ok v.
Proof.
  induction v as [| | |s|items IH|fields IH] using json_induction;
    intros Hp H; try reflexivity.
  - rewrite replaceNewlinesInObject_eq. do 2 f_equal.
    apply replace_global_absent. exact H.
  - apply normalized_arr in H. apply plain_keys_arr in Hp.
    rewrite replaceNewlinesInObject_eq.
    assert (E : map_result replaceNewlinesInObject items = Ok items).
    { induction items as [|x rest IHl]; [reflexivity|].
      inversion IH; subst. inversion H; subst. inversion Hp; subst.
      cbn [map_result]. rewrite H2 by assumption. cbn [rbind].
      rewrite IHl by assumption. reflexivity. }
    now rewrite E.
  - apply normalized_obj in H. apply plain_keys_obj in Hp.
    destruct Hp as [Ho [Hq Hp]].
    rewrite replaceNewlinesInObject_eq, Ho.
    assert (E : map_result
                  (fun kv => try! x <- replaceNewlinesInObject (snd kv); Ok (fst kv, x))
                  fields = Ok fields).
    { clear Ho Hq. induction fields as [|[k x] rest IHl]; [reflexivity|].
      inversion IH; subst. inversion H; subst. inversion Hp; subst.
      cbn [map_result fst snd] in *. rewrite H2 by assumption. cbn [rbind].
      rewrite IHl by assumption. reflexivity. }
    rewrite E. cbn [rbind]. now rewrite filter_proto_plain.
Qed.

(** X1.  [replaceNewlinesInObject] on the arguments of a tool call.
    Whatever the value: when the function returns, no string value of the
    result, at any depth of arrays and objects, still holds the sequence
    backslash, backslash, n; when it throws, the exception is a type error
    and some object of the value has an own key [hasOwnProperty] or
    [__proto__].  On a value without such keys it returns the value with
    the sequences replaced, and normalizing that result again returns it
    unchanged; a value without such keys that holds the sequence nowhere
    is returned as it is. *)
Theorem replaceNewlinesInObject_idempotent :
  forall v : json,
    (forall v', replaceNewlinesInObject v = Ok v' -> normalized v') /\
    (forall e, replaceNewlinesInObject v = Err e ->
               e = TypeError /\ plain_keys v = false) /\
    (plain_keys v = true ->
     exists v',
       replaceNewlinesInObject v = Ok v' /\
       newlines_replaced v v' /\
       replaceNewlinesInObject v' = Ok v') /\
    (plain_keys v = true -> normalized v -> replaceNewlinesInObject v = Ok v).
Proof.
  intros v. split; [|split; [|split]].
  - apply replaceNewlinesInObject_normal.
  - intros e He. split; [exact (replaceNewlinesInObject_error v He)|].
    destruct (plain_keys v) eqn:Hp; [|reflexivity].
    destruct (replaceNewlinesInObject_plain v Hp) as [v' [E _]]. congruence.
  - intros Hp. destruct (replaceNewlinesInObject_plain v Hp) as [v' [E [R P]]].
    exists v'. repeat split; [exact E | exact R |].
    apply replaceNewlinesInObject_fixed; [exact P|].
    exact (replaceNewlinesInObject_normal v E).
  - apply replaceNewlinesInObject_fixed.
Qed.

(** X2.  On a string, [replaceNewlinesInObject] replaces every occurrence
    of the sequence, not the first one only: with the leftmost occurrence
    between [pre] and [post], the result is [pre], a newline, and the
    normalization of [post]. *)
Theorem replaceNewlinesInObject_string :
  forall s pre post : string,
    occurs_at escaped_newline s pre post ->
    leftmost escaped_newline s pre ->
    exists t,
      replaceNewlinesInObject (JStr post) = Ok (JStr t) /\
      replaceNewlinesInObject (JStr s) = Ok (JStr (pre ++ newline ++ t)%string).
Proof.
  intros s pre post Ho Hl.
  exists (replace_global escaped_newline newline 0 post).
  split; [reflexivity|].
  rewrite replaceNewlinesInObject_eq. do 2 f_equal.
  apply replace_global_leftmost; [discriminate | exact Ho | exact Hl].
Qed.

(** ** More on the message transcoder *)

Section MoreTranscoderFacts.

Variable JSON_parse : string -> option json.

Lemma JSON_parse_arg_error (s : option string) (e : error) :
  JSON_parse_arg JSON_parse s = Err e <->
  e = SyntaxError /\
  (s = None \/ exists a, s = Some a /\ JSON_parse a = None).
Proof.
  unfold JSON_parse_arg. destruct s as [a|].
  - destruct (JSON_parse a) eqn:E; split.
    + discriminate.
    + intros [_ [H|[a' [H H']]]]; [discriminate|]. inversion H; subst. congruence.
    + intros H. inversion H. split; [reflexivity|]. right. eauto.
    + intros [-> _]. reflexivity.
  - split.
    + intros H. inversion H. auto.
    + intros [-> _]. reflexivity.
Qed.

Lemma transformMessage_recognized_error (m : Message.t) (e : error) :
  recognized_role (Message.role m) = true ->
  transformMessage JSON_parse m = Err e ->
  Message.role m = "assistant" /\
  exists fc,
    Message.function_call m = Some fc /\
    JSON_parse_arg JSON_parse (FunctionCall.arguments fc) = Err e.
Proof.
  unfold transformMessage, recognized_role.
  destruct (String.eqb (Message.role m) "user"); [discriminate|].
  destruct (String.eqb (Message.role m) "assistant") eqn:Ea.
  - apply String.eqb_eq in Ea. intros _.
    destruct (Message.function_call m) as [fc|]; [|discriminate].
    destruct (JSON_parse_arg JSON_parse (FunctionCall.arguments fc)) as [v|e'] eqn:Ep;
      cbn [rbind]; [discriminate|].
    intros H. inversion H; subst e'. split; [exact Ea|]. exists fc. auto.
  - destruct (String.eqb (Message.role m) "function"); [discriminate|].
    destruct (String.eqb (Message.role m) "system"); discriminate.
Qed.

Lemma transformMessage_without_function_call (m : Message.t) :
  recognized_role (Message.role m) = true ->
  Message.function_call m = None ->
  exists c, transformMessage JSON_parse m = Ok c.
Proof.
  intros Hr Hf. destruct (transformMessage JSON_parse m) as [c|e] eqn:E; [eauto|].
  destruct (transformMessage_recognized_error m Hr E) as [_ [fc [Hfc _]]].
  congruence.
Qed.

(** X3.  A content produced by [transformMessage] has exactly one part, and
    its role is one of [user], [model] and [function]: a text goes out as
    [user] or [model], a function call as [model], a function response as
    [function].  No content with the role [system] or [assistant] is ever
    produced. *)
Theorem transformMessage_one_part :
  forall (m : Message.t) (c : Content.t),
    transformMessage JSON_parse m = Ok c ->
    exists part,
      Content.parts c = [part] /\
      match part with
      | text _ => Content.role c = "user" \/ Content.role c = "model"
      | functionCall _ _ => Content.role c = "model"
      | functionResponse _ _ _ => Content.role c = "function"
      end.
Proof.
  intros m c. unfold transformMessage.
  destruct (String.eqb (Message.role m) "user").
  { intros H. inversion H. eexists. split; [reflexivity|]. now left. }
  destruct (String.eqb (Message.role m) "assistant").
  { destruct (Message.function_call m) as [fc|].
    - destruct (JSON_parse_arg JSON_parse (FunctionCall.arguments fc));
        cbn [rbind]; [|discriminate].
      intros H. inversion H. eexists. split; reflexivity.
    - intros H. inversion H. eexists. split; [reflexivity|]. now right. }
  destruct (String.eqb (Message.role m) "function").
  { intros H. inversion H. eexists. split; reflexivity. }
  destruct (String.eqb (Message.role m) "system"); [|discriminate].
  intros H. inversion H. eexists. split; [reflexivity|]. now left.
Qed.

(** X4.  [transformMessage] throws in two cases only: the role is none of
    the four, and the error is the invalid-role error; or the message is an
    assistant message with a [function_call] whose [arguments] are absent
    or are not JSON, and the error is the syntax error of [JSON.parse].
    User, function and system messages, and assistant messages without
    [function_call], are always transcoded. *)
Theorem transformMessage_failure :
  forall (m : Message.t) (e : error),
    transformMessage JSON_parse m = Err e <->
    (recognized_role (Message.role m) = false /\ e = InvalidMessageRole) \/
    (Message.role m = "assistant" /\ e = SyntaxError /\
     exists fc,
       Message.function_call m = Some fc /\
       (FunctionCall.arguments fc = None \/
        exists a, FunctionCall.arguments fc = Some a /\ JSON_parse a = None)).
Proof.
  intros m e. unfold transformMessage, recognized_role.
  destruct (String.eqb (Message.role m) "user") eqn:Eu.
  { apply String.eqb_eq in Eu. split; [discriminate|].
    intros [[H _]|[H _]]; [discriminate | congruence]. }
  destruct (String.eqb (Message.role m) "assistant") eqn:Ea.
  { apply String.eqb_eq in Ea. cbn [orb].
    destruct (Message.function_call m) as [fc|].
    - destruct (JSON_parse_arg JSON_parse (FunctionCall.arguments fc)) as [v|e']
        eqn:Ep; cbn [rbind].
      + split; [discriminate|].
        intros [[H _]|[_ [-> [fc' [Hfc Harg]]]]]; [discriminate|].
        inversion Hfc; subst fc'.
        assert (Hb : JSON_parse_arg JSON_parse (FunctionCall.arguments fc)
                     = Err SyntaxError)
          by (apply JSON_parse_arg_error; auto).
        congruence.
      + apply JSON_parse_arg_error in Ep. destruct Ep as [-> Harg]. split.
        * intros H. inversion H. right. split; [exact Ea|]. split; [reflexivity|].
          exists fc. auto.
        * intros [[H _]|[_ [-> _]]]; [discriminate | reflexivity].
    - split; [discriminate|].
      intros [[H _]|[_ [_ [fc [H _]]]]]; discriminate. }
  destruct (String.eqb (Message.role m) "function") eqn:Ef.
  { apply String.eqb_neq in Ea. cbn [orb]. split; [discriminate|].
    intros [[H _]|[H _]]; [discriminate | congruence]. }
  destruct (String.eqb (Message.role m) "system") eqn:Es.
  { apply String.eqb_neq in Ea. cbn [orb]. split; [discriminate|].
    intros [[H _]|[H _]]; [discriminate | congruence]. }
  apply String.eqb_neq in Ea. cbn [orb]. split.
  - intros H. inversion H. left. auto.
  - intros [[_ ->]|[H _]]; [reflexivity | congruence].
Qed.

(** X5.  Transcoding a concatenation is transcoding each half and
    concatenating: [transformMessages(a.concat(b))] is
    [transformMessages(a).concat(transformMessages(b))], the exception of
    the first half coming first. *)
Theorem transformMessages_app :
  forall a b : list Message.t,
    transformMessages JSON_parse (a ++ b) =
    (try! a' <- transformMessages JSON_parse a;
     try! b' <- transformMessages JSON_parse b;
     Ok (a' ++ b')).
Proof.
  intros a b. unfold transformMessages.
  rewrite filter_app. apply map_result_app.
Qed.

(** X6.  [transformMessages] never throws the invalid-role error, whatever
    the roles in the list: its only exception is the syntax error of an
    assistant function call whose arguments are not JSON. *)
Theorem transformMessages_only_syntax_error :
  forall (messages : list Message.t) (e : error),
    transformMessages JSON_parse messages = Err e ->
    e = SyntaxError /\
    exists m fc,
      In m messages /\ Message.role m = "assistant" /\
      Message.function_call m = Some fc /\
      JSON_parse_arg JSON_parse (FunctionCall.arguments fc) = Err SyntaxError.
Proof.
  intros messages e H. unfold transformMessages in H.
  apply map_result_error in H. destruct H as [m [Hin Hm]].
  apply filter_In in Hin. destruct Hin as [Hin Hr].
  destruct (transformMessage_recognized_error m Hr Hm) as [Ha [fc [Hfc Harg]]].
  assert (He : e = SyntaxError) by (apply JSON_parse_arg_error in Harg; tauto).
  subst e. split; [reflexivity|]. exists m, fc. auto.
Qed.

(** X7.  A list in which no message carries a [function_call] is always
    transcoded, by any [JSON.parse], into as many contents as it has
    messages with a recognized role. *)
Theorem transformMessages_without_function_call :
  forall messages : list Message.t,
    (forall m, In m messages -> Message.function_call m = None) ->
    exists contents,
      transformMessages JSON_parse messages = Ok contents /\
      List.length contents
      = List.length (filter (fun m => recognized_role (Message.role m)) messages).
Proof.
  intros messages Hno.
  destruct (transformMessages JSON_parse messages) as [contents|e] eqn:E.
  - exists contents. split; [reflexivity|].
    unfold transformMessages in E. apply map_result_Forall2 in E.
    symmetry. eapply Forall2_length. exact E.
  - unfold transformMessages in E.
    apply map_result_error in E. destruct E as [m [Hin Hm]].
    apply filter_In in Hin. destruct Hin as [Hin Hr].
    destruct (transformMessage_without_function_call m Hr (Hno m Hin)) as [c Hc].
    congruence.
Qed.

End MoreTranscoderFacts.

(** ** More on the streaming bridge *)

Section MoreBridgeFacts.

Variable JSON_stringify : json -> string.

Lemma for_await_failure (fragments : list string) (e : error)
    (rest : list (result string)) (c : Controller.t) :
  for_await (map Ok fragments ++ Err e :: rest) c =
  (Controller.mk (Controller.queue c ++ map text_record fragments) (Controller.state c),
   Err e).
Proof.
  revert c. induction fragments as [|f fs IH]; intros c.
  - cbn [map app]. rewrite for_await_cons_err, app_nil_r. destruct c; reflexivity.
  - cbn [map app]. rewrite for_await_cons_ok, IH.
    cbn [Controller.queue Controller.state].
    rewrite <- app_assoc. reflexivity.
Qed.

(** Every upstream stream is a run of texts, followed or not by a
    failure. *)
Lemma stream_split (stream : list (result string)) :
  (exists fragments, stream = map Ok fragments) \/
  (exists fragments e rest, stream = map Ok fragments ++ Err e :: rest).
Proof.
  induction stream as [|[f|e] stream IH].
  - left. exists []. reflexivity.
  - destruct IH as [[fs ->]|[fs [e [rest ->]]]].
    + left. exists (f :: fs). reflexivity.
    + right. exists (f :: fs), e, rest. reflexivity.
  - right. exists [], e, stream. reflexivity.
Qed.

Lemma text_records_no_end (fragments : list string) :
  ~ In EndRecord (map text_record fragments).
Proof.
  induction fragments as [|f fs IH]; [intros []|].
  intros [H|H]; [discriminate H | exact (IH H)].
Qed.

(** X8.  When the upstream stream fails, after any number of fragments,
    the records the producer has written are the chunks of the fragments
    received before the failure and nothing else: nothing of what the
    upstream would have produced after it, no tool-call chunk, no end
    marker; and the stream ends errored with the upstream error, not
    closed.  Which of the written chunks a reader still gets from the
    errored stream is not stated. *)
Theorem start_upstream_failure :
  forall (fragments : list string) (e : error) (rest : list (result string))
         (response : result (option (list ModelFunctionCall.t))),
    ReadableStream
      (start JSON_stringify
         (StreamResult.mk (map Ok fragments ++ Err e :: rest) response))
    = Controller.mk (map text_record fragments) (Errored e).
Proof.
  intros fragments e rest response.
  unfold ReadableStream, start. rewrite bind_eq.
  cbn [StreamResult.stream]. rewrite for_await_failure. reflexivity.
Qed.

(** X9.  For every upstream result the stream ends either closed or
    errored, never still open.  Closed, the end marker was written exactly
    once, as the last record; errored, the end marker was never written. *)
Theorem start_end_marker_once :
  forall r : StreamResult.t,
    let out := ReadableStream (start JSON_stringify r) in
    (Controller.state out = Closed /\
     exists q, Controller.queue out = q ++ [EndRecord] /\ ~ In EndRecord q) \/
    (exists e, Controller.state out = Errored e /\ ~ In EndRecord (Controller.queue out)).
Proof.
  intros [stream response] out. subst out.
  destruct (stream_split stream) as [[fs ->]|[fs [e [rest ->]]]].
  - rewrite start_fragments.
    destruct response as [[[|call calls]|]|e];
      try cbn [Controller.state Controller.queue].
    + left. split; [reflexivity|]. eexists. split; [reflexivity|].
      apply text_records_no_end.
    + destruct (map_tool_calls JSON_stringify 0 (call :: calls)) as [tool_calls|e];
        cbn [Controller.state Controller.queue].
      * left. split; [reflexivity|].
        exists (map text_record fs ++ [ChunkRecord (tool_calls_chunk tool_calls)]).
        split; [now rewrite <- app_assoc|].
        intros H. apply in_app_or in H. destruct H as [H|[H|[]]];
          [exact (text_records_no_end fs H) | discriminate H].
      * right. exists e. split; [reflexivity | apply text_records_no_end].
    + left. split; [reflexivity|]. eexists. split; [reflexivity|].
      apply text_records_no_end.
    + right. exists e. split; [reflexivity | apply text_records_no_end].
  - unfold ReadableStream, start. rewrite bind_eq.
    cbn [StreamResult.stream]. rewrite for_await_failure.
    right. exists e. split; [reflexivity | apply text_records_no_end].
Qed.






(** The entries of the tool-call chunk, for calls whose arguments can be
    normalized: entry [ix] carries the index, its decimal text, the name
    of call [ix] and the serialization of its arguments with the
    sequences replaced. *)
Lemma map_tool_calls_entries (calls : list ModelFunctionCall.t) (from : nat) :
  Forall (fun call => plain_keys (ModelFunctionCall.args call) = true) calls ->
  exists tool_calls,
    map_tool_calls JSON_stringify from calls = Ok tool_calls /\
    List.length tool_calls = List.length calls /\
    forall ix call,
      nth_error calls ix = Some call ->
      exists args',
        newlines_replaced (ModelFunctionCall.args call) args' /\
        nth_error tool_calls ix =
        Some (ToolCall.mk (from + ix)
                (NilZero.string_of_uint (Nat.to_uint (from + ix)))
                (ToolCallFunction.mk (ModelFunctionCall.name call)
                   (JSON_stringify args'))).
Proof.
  revert from. induction calls as [|call rest IH]; intros from Hp.
  - exists []. repeat split. intros [|ix] call H; discriminate H.
  - inversion Hp as [|? ? Hcall Hrest]; subst.
    destruct (replaceNewlinesInObject_plain _ Hcall) as [args' [E [R _]]].
    destruct (IH (S from) Hrest) as [rest' [Er [Hlen Hnth]]].
    eexists. cbn [map_tool_calls]. rewrite E, Er. cbn [rbind].
    split; [reflexivity|]. split; [cbn [List.length]; now rewrite Hlen|].
    intros [|ix] call' H; cbn [nth_error] in *.
    + injection H as <-. exists args'. split; [exact R|].
      now rewrite Nat.add_0_r.
    + destruct (Hnth ix call' H) as [a [Ra Ha]]. exists a. split; [exact Ra|].
      rewrite Ha. now rewrite Nat.add_succ_r.
Qed.


(** C3, as the code has it.  For every run of the bridge on fragments
    [fragments] and an aggregated response reporting [calls], no argument
    object of which has a key [hasOwnProperty] or [__proto__]: when [calls] has at least one
    element, the records written are the text chunks, then exactly one
    more chunk whose [delta.tool_calls] has one entry per call, entry [ix]
    being [{index: ix, id: the decimal text of ix, function: {name: the
    call's name, arguments: the JSON serialization of the call's arguments
    in which, in every string value at any depth of arrays and objects,
    every sequence backslash, backslash, n is replaced by a newline}}],
    then the end marker; when [calls] is absent or empty, the records are
    the text chunks, which carry no [tool_calls], then the end marker; the
    stream is closed.  And for every upstream result, whatever the
    arguments, a stream that ends closed has the end marker as its last
    record. *)
Theorem start_tool_calls_then_end :
  forall (fragments : list string) (calls : option (list ModelFunctionCall.t)),
    Forall (fun call => plain_keys (ModelFunctionCall.args call) = true)
      (match calls with Some reported => reported | None => [] end) ->
    let out :=
      ReadableStream (start JSON_stringify (StreamResult.mk (map Ok fragments) (Ok calls))) in
    Controller.state out = Closed /\
    match calls with
    | Some ((_ :: _) as reported) =>
        exists tool_calls,
          Controller.queue out =
            map text_record fragments
              ++ [ChunkRecord
                    (ChatCompletionChunk.mk
                       [Choice.mk (Delta.mk "assistant" "" (Some tool_calls))]);
                  EndRecord] /\
          List.length tool_calls = List.length reported /\
          forall ix call,
            nth_error reported ix = Some call ->
            exists args',
              newlines_replaced (ModelFunctionCall.args call) args' /\
              nth_error tool_calls ix =
              Some (ToolCall.mk ix
                      (NilZero.string_of_uint (Nat.to_uint ix))
                      (ToolCallFunction.mk (ModelFunctionCall.name call)
                         (JSON_stringify args')))
    | _ => Controller.queue out = map text_record fragments ++ [EndRecord]
    end /\
    (forall r : StreamResult.t,
        (Controller.state (ReadableStream (start JSON_stringify r)) = Closed /\
         exists q,
           Controller.queue (ReadableStream (start JSON_stringify r)) = q ++ [EndRecord]) \/
        (exists e, Controller.state (ReadableStream (start JSON_stringify r)) = Errored e)).
Proof.
  intros fragments calls Hp out. subst out. rewrite start_fragments.
  assert (Hlast : forall r : StreamResult.t,
            (Controller.state (ReadableStream (start JSON_stringify r)) = Closed /\
             exists q,
               Controller.queue (ReadableStream (start JSON_stringify r))
               = q ++ [EndRecord]) \/
            (exists e,
                Controller.state (ReadableStream (start JSON_stringify r)) = Errored e))
    by apply ReadableStream_outcome.
  destruct calls as [[|call rest]|];
    [split; [reflexivity | split; [reflexivity | exact Hlast]] |
    | split; [reflexivity | split; [reflexivity | exact Hlast]]].
  destruct (@map_tool_calls_entries (call :: rest) 0 Hp) as [tool_calls [E [Hlen Hnth]]].
  rewrite E. split; [reflexivity|]. split; [|exact Hlast].
  exists tool_calls. split; [reflexivity|]. split; [exact Hlen|].
  exact Hnth.
Qed.

End MoreBridgeFacts.

(** ** More on the facade *)

Section MoreFacadeFacts.

Variable JSON_parse : string -> option json.
Variable JSON_stringify : json -> string.

Lemma last_message_last (before : list Message.t) (m : Message.t) :
  last_message (before ++ [m]) = Some m.
Proof.
  unfold last_message. destruct (before ++ [m]) eqn:E.
  - now destruct before.
  - rewrite <- E. rewrite length_app. cbn [List.length].
    replace (List.length before + 1 - 1) with (List.length before) by lia.
    rewrite nth_error_app2 by lia. now rewrite Nat.sub_diag.
Qed.

(** X11.  On an empty list of messages [getResponse] does not stop at
    once: it creates the chat session, with an empty system message, and
    then fails with a type error on the missing current message; nothing
    is sent to the service and the array stays empty. *)
Theorem getResponse_empty_messages :
  forall (this : GenerativeModel.t) (tools : option (list ToolInput.t))
         (calls : list ClientCall) (tools' : list Tool.t),
    transformTools (match tools with Some ts => ts | None => [] end) = Ok tools' ->
    let baseline :=
      String.eqb (GenerativeModel.model this) "gemini-pro"
      || String.eqb (GenerativeModel.model this) "models/gemini-pro" in
    getResponse JSON_parse JSON_stringify this tools (World.mk [] calls) =
    (World.mk []
       (calls ++
        [StartChat
           (StartChatParams.mk
              (if baseline then [Content.mk "user" [text ""]] else [])
              (if baseline then None else Some (Content.mk "user" [text ""]))
              tools')]),
     Err TypeError).
Proof.
  intros this tools calls tools' Ht baseline.
  rewrite getResponse_run.
  cbn [World.messages World.calls slice_0_m1 removelast].
  change (transformMessages JSON_parse []) with (@Ok (list Content.t) []).
  cbv zeta. rewrite Ht. reflexivity.
Qed.

(** X12.  A request whose history cannot be transcoded is given up before
    anything has happened: the array of messages is untouched and no
    session is created.  A request whose tools cannot be transcoded is
    given up before the session is created, but after the first message
    has been removed from the array. *)
Theorem getResponse_fails_before_session :
  forall (this : GenerativeModel.t) (tools : option (list ToolInput.t)) (w : World.t)
         (e : error),
    (transformMessages JSON_parse (slice_0_m1 (World.messages w)) = Err e ->
     getResponse JSON_parse JSON_stringify this tools w = (w, Err e)) /\
    (forall history,
        transformMessages JSON_parse (slice_0_m1 (World.messages w)) = Ok history ->
        transformTools (match tools with Some ts => ts | None => [] end) = Err e ->
        getResponse JSON_parse JSON_stringify this tools w
        = (World.mk (tl (World.messages w)) (World.calls w), Err e)).
Proof.
  intros this tools w e. split.
  - intros H. rewrite getResponse_run, H. reflexivity.
  - intros history Hh Ht. rewrite getResponse_run, Hh. cbv zeta.
    rewrite Ht. reflexivity.
Qed.

(** X13.  A successful request, for a list of any length and a client
    that accepts the session: the history of the session is the
    transcoding of every message but the last (the first one included),
    followed by the system turn for the baseline variant; the system
    instruction is the trimmed content of the first message of the list;
    what is sent is the parts of the transcoded last message; the stream is
    the one produced from the answer of the service; and the array has lost
    its first element. *)
Theorem getResponse_success :
  forall (check : StartChatParams.t -> result unit)
         (this : GenerativeModel.t) (tools : option (list ToolInput.t))
         (before : list Message.t) (m : Message.t) (calls : list ClientCall)
         (history : list Content.t) (tools' : list Tool.t)
         (current : Content.t) (r : StreamResult.t),
    transformMessages JSON_parse before = Ok history ->
    transformTools (match tools with Some ts => ts | None => [] end) = Ok tools' ->
    transformMessage JSON_parse m = Ok current ->
    let systemInstruction :=
      Content.mk "user" [text (trim (Message.content (hd m before)))] in
    let baseline :=
      String.eqb (GenerativeModel.model this) "gemini-pro"
      || String.eqb (GenerativeModel.model this) "models/gemini-pro" in
    let params :=
      StartChatParams.mk
        (history ++ (if baseline then [systemInstruction] else []))
        (if baseline then None else Some systemInstruction)
        tools' in
    check params = Ok tt ->
    GenerativeModel.service this params (Content.parts current) = Ok r ->
    getResponse_checked JSON_parse JSON_stringify check this tools
      (World.mk (before ++ [m]) calls) =
    (World.mk (tl (before ++ [m]))
       (calls ++ [StartChat params; SendMessageStream (Content.parts current)]),
     Ok (CopilotKitResponse.mk (ReadableStream (start JSON_stringify r)))).
Proof.
  intros check this tools before m calls history tools' current r Hh Ht Hc
         systemInstruction baseline params Hcheck Hr.
  rewrite getResponse_checked_run.
  cbn [World.messages World.calls]. unfold slice_0_m1.
  rewrite removelast_last, Hh. cbv zeta. rewrite Ht, last_message_last.
  cbn [transformMessage_arg]. rewrite Hc.
  assert (Hs : system_message_of (hd_error (before ++ [m]))
               = trim (Message.content (hd m before))).
  { destruct before; apply system_message_of_trim. }
  rewrite Hs. fold baseline. unfold system_content. fold systemInstruction.
  fold params. rewrite Hcheck, Hr. reflexivity.
Qed.

(** X14.  Whatever its arguments, [getResponse] calls the client at most
    twice and in this order: it creates at most one session and then
    sends at most one message.  When it returns a stream it has done
    both, and what it sent is the parts of the transcoded last message. *)
Theorem getResponse_client_calls :
  forall (this : GenerativeModel.t) (tools : option (list ToolInput.t)) (w : World.t),
    exists added,
      World.calls (fst (getResponse JSON_parse JSON_stringify this tools w))
      = World.calls w ++ added /\
      (added = [] \/
       (exists params, added = [StartChat params]) \/
       (exists params parts, added = [StartChat params; SendMessageStream parts])) /\
      match snd (getResponse JSON_parse JSON_stringify this tools w) with
      | Ok _ =>
          exists params current,
            added = [StartChat params; SendMessageStream (Content.parts current)] /\
            transformMessage_arg JSON_parse (last_message (World.messages w))
            = Ok current
      | Err _ => True
      end.
Proof.
  intros this tools w. rewrite getResponse_run.
  destruct (transformMessages JSON_parse (slice_0_m1 (World.messages w))).
  2:{ exists []. rewrite app_nil_r. cbn. auto. }
  cbv zeta. destruct (transformTools _).
  2:{ exists []. rewrite app_nil_r. cbn. auto. }
  destruct (transformMessage_arg JSON_parse _) as [current|e].
  2:{ eexists. split; [reflexivity|]. cbn. split; [|exact I]. right. left. eauto. }
  destruct (GenerativeModel.service this _ _).
  - eexists. split; [reflexivity|]. cbn. split; [right; right; eauto|]. eauto.
  - eexists. split; [reflexivity|]. cbn. split; [right; right; eauto | exact I].
Qed.

End MoreFacadeFacts.

(** ** More on the tool transcoder *)

Lemma assoc_In (key : string) (fields : list (string * json)) (x : json) :
  assoc key fields = Some x -> In (key, x) fields.
Proof.
  induction fields as [|[k y] rest IH]; cbn [assoc]; [discriminate|].
  destruct (String.eqb k key) eqn:E.
  - apply String.eqb_eq in E. intros H. inversion H; subst. now left.
  - intros H. right. now apply IH.
Qed.

Lemma update_field_assoc (f : json -> result json) (key : string)
    (fields : list (string * json)) :
  update_field f key fields =
  match assoc key fields with
  | None => Ok fields
  | Some y => try! x <- f y; Ok (assoc_set key x fields)
  end.
Proof.
  induction fields as [|[k y] rest IH]; cbn [update_field assoc assoc_set];
    [reflexivity|].
  destruct (String.eqb k key); [reflexivity|].
  rewrite IH. destruct (assoc key rest) as [z|]; [|reflexivity].
  destruct (f z); reflexivity.
Qed.

Lemma assoc_set_other (k1 k2 : string) (x : json) (fields : list (string * json)) :
  k1 <> k2 -> assoc k2 (assoc_set k1 x fields) = assoc k2 fields.
Proof.
  intros Hk. induction fields as [|[k y] rest IH]; [reflexivity|].
  cbn [assoc_set]. destruct (String.eqb k k1) eqn:E1; cbn [assoc].
  - apply String.eqb_eq in E1. subst k.
    destruct (String.eqb k1 k2) eqn:E2; [|reflexivity].
    apply String.eqb_eq in E2. contradiction.
  - now rewrite IH.
Qed.

Lemma assoc_set_same (key : string) (x y : json) (fields : list (string * json)) :
  assoc key fields = Some y -> assoc key (assoc_set key x fields) = Some x.
Proof.
  induction fields as [|[k z] rest IH]; cbn [assoc assoc_set]; [discriminate|].
  destruct (String.eqb k key) eqn:E; cbn [assoc]; rewrite E; auto.
Qed.

Lemma assoc_set_id (key : string) (x : json) (fields : list (string * json)) :
  assoc key fields = Some x -> assoc_set key x fields = fields.
Proof.
  induction fields as [|[k z] rest IH]; cbn [assoc assoc_set]; [reflexivity|].
  destruct (String.eqb k key).
  - intros H. now inversion H.
  - intros H. now rewrite IH.
Qed.

Lemma assoc_set_keys (key : string) (x : json) (fields : list (string * json)) :
  map fst (assoc_set key x fields) = map fst fields.
Proof.
  induction fields as [|[k z] rest IH]; [reflexivity|].
  cbn [assoc_set]. destruct (String.eqb k key); cbn [map fst]; [reflexivity|].
  now rewrite IH.
Qed.

Lemma upper_ascii_idempotent (c : ascii) : upper_ascii (upper_ascii c) = upper_ascii c.
Proof. destruct c as [[] [] [] [] [] [] [] []]; reflexivity. Qed.

Lemma toUpperCase_idempotent (s : string) : toUpperCase (toUpperCase s) = toUpperCase s.
Proof.
  induction s as [|c s IH]; [reflexivity|].
  cbn [toUpperCase]. now rewrite upper_ascii_idempotent, IH.
Qed.

Lemma transformProperties_type_idempotent (t t' : json) :
  transformProperties_type t = Ok t' -> transformProperties_type t' = Ok t'.
Proof.
  unfold transformProperties_type.
  destruct t as [| | |s| |]; cbn [truthy];
    try (intros H; inversion H; subst; cbn [truthy]; reflexivity);
    try discriminate.
  - destruct b; [discriminate|]. intros H. inversion H; reflexivity.
  - destruct (Z.eqb z 0) eqn:E; cbn [negb]; [|discriminate].
    intros H. inversion H. cbn [truthy]. rewrite E. reflexivity.
  - destruct s as [|c s]; cbn [String.eqb negb].
    + intros H. inversion H. reflexivity.
    + intros H. inversion H. cbn [toUpperCase truthy String.eqb negb].
      now rewrite upper_ascii_idempotent, toUpperCase_idempotent.
Qed.

(** Strong induction along the recursive calls of [transformProperties]. *)
Lemma walked_induction (P : json -> Prop) :
  (forall props, (forall q, walked props q -> P q) -> P props) ->
  forall props, P props.
Proof.
  intros Hstep.
  assert (Hwalk : forall props,
             (forall v, enumerated props v -> forall q, enumerated v q -> P q) ->
             P props).
  { intros props H. apply Hstep. intros q [v [fs [Hv [-> Hq]]]].
    apply (H _ Hv). exists "properties". now apply assoc_In. }
  assert (H : forall props, P props /\ forall v, enumerated props v -> P v).
  { induction props as [| | | |items IH|fields IH] using json_induction.
    1-4: (split; [apply Hwalk; intros v Hv; destruct Hv | intros v Hv; destruct Hv]).
    - rewrite Forall_forall in IH. split.
      + apply Hwalk. intros v Hv. exact (proj2 (IH v Hv)).
      + intros v Hv. exact (proj1 (IH v Hv)).
    - rewrite Forall_forall in IH. split.
      + apply Hwalk. intros v Hv. cbn [enumerated] in Hv. destruct Hv as [k Hv].
        exact (proj2 (IH (k, v) Hv)).
      + intros v Hv. cbn [enumerated] in Hv. destruct Hv as [k Hv].
        exact (proj1 (IH (k, v) Hv)). }
  intros props. apply H.
Qed.

Lemma Forall2_refl_from {A} (R : A -> A -> Prop) (xs ys : list A) :
  Forall2 R xs ys ->
  (forall x y, In x xs -> R x y -> R y y) ->
  Forall2 R ys ys.
Proof.
  induction 1 as [|x y xs ys Hxy _ IH]; intros H; constructor.
  - apply (H x y); [now left | exact Hxy].
  - apply IH. intros x' y' Hin. apply H. now right.
Qed.

Lemma transformProperties_truthy (props props' : json) :
  transformProperties props = Ok props' ->
  truthy (Some props') = truthy (Some props).
Proof.
  rewrite transformProperties_eq.
  destruct props as [| | | |items|fields]; try (intros H; now inversion H).
  - destruct (map_result _ items); cbn [rbind]; [|discriminate].
    intros H. now inversion H.
  - destruct (map_result _ fields); cbn [rbind]; [|discriminate].
    intros H. now inversion H.
Qed.

(** What the loop does to one enumerated object. *)
Lemma transformProperties_step_obj (walk : json -> result json)
    (fields : list (string * json)) :
  transformProperties_step walk (JObj fields) =
  (try! fields1 <-
     match assoc "type" fields with
     | None => Ok fields
     | Some t => try! t' <- transformProperties_type t; Ok (assoc_set "type" t' fields)
     end;
   try! fields2 <-
     match assoc "properties" fields with
     | None => Ok fields1
     | Some q =>
         try! q' <- (if truthy (Some q) then walk q else Ok q);
         Ok (assoc_set "properties" q' fields1)
     end;
   Ok (JObj fields2)).
Proof.
  cbn [transformProperties_step]. rewrite update_field_assoc.
  destruct (assoc "type" fields) as [t|] eqn:Et.
  - destruct (transformProperties_type t) as [t'|e]; cbn [rbind]; [|reflexivity].
    rewrite update_field_assoc. rewrite assoc_set_other by discriminate.
    reflexivity.
  - cbn [rbind]. rewrite update_field_assoc. reflexivity.
Qed.

(** An enumerated object whose [type] and [properties] are not changed
    by their updates is left as it is. *)
Lemma transformProperties_step_fixed (walk : json -> result json)
    (fields : list (string * json)) :
  (forall t, assoc "type" fields = Some t -> transformProperties_type t = Ok t) ->
  (forall q, assoc "properties" fields = Some q ->
             (if truthy (Some q) then walk q else Ok q) = Ok q) ->
  transformProperties_step walk (JObj fields) = Ok (JObj fields).
Proof.
  intros Ht Hq. rewrite transformProperties_step_obj.
  destruct (assoc "type" fields) as [t|] eqn:Et.
  - rewrite (Ht t eq_refl). cbn [rbind]. rewrite (@assoc_set_id "type" t fields Et).
    destruct (assoc "properties" fields) as [q|] eqn:Eq; [|reflexivity].
    rewrite (Hq q eq_refl). cbn [rbind].
    now rewrite (@assoc_set_id "properties" q fields Eq).
  - cbn [rbind].
    destruct (assoc "properties" fields) as [q|] eqn:Eq; [|reflexivity].
    rewrite (Hq q eq_refl). cbn [rbind].
    now rewrite (@assoc_set_id "properties" q fields Eq).
Qed.

(** The object the loop leaves behind: same keys in the same order; its
    [type] and its [properties] are the updated ones. *)
Lemma transformProperties_step_result (walk : json -> result json)
    (fields : list (string * json)) (v' : json) :
  transformProperties_step walk (JObj fields) = Ok v' ->
  exists fields',
    v' = JObj fields' /\
    map fst fields' = map fst fields /\
    (forall t', assoc "type" fields' = Some t' ->
                exists t, assoc "type" fields = Some t /\
                          transformProperties_type t = Ok t') /\
    (forall q', assoc "properties" fields' = Some q' ->
                exists q, assoc "properties" fields = Some q /\
                          (if truthy (Some q) then walk q else Ok q) = Ok q').
Proof.
  rewrite transformProperties_step_obj.
  destruct (assoc "type" fields) as [t|] eqn:Et.
  - destruct (transformProperties_type t) as [t1|e] eqn:ET; cbn [rbind]; [|discriminate].
    destruct (assoc "properties" fields) as [q|] eqn:Eq.
    + destruct (if truthy (Some q) then walk q else Ok q) as [q1|e] eqn:EW;
        cbn [rbind]; [|discriminate].
      intros H. inversion H; subst v'. eexists. split; [reflexivity|].
      split; [now rewrite !assoc_set_keys|]. split.
      * intros t'. rewrite assoc_set_other by discriminate.
        rewrite (@assoc_set_same "type" t1 t fields Et).
        intros Ht'. inversion Ht'; subst. eauto.
      * intros q'.
        rewrite (@assoc_set_same "properties" q1 q (assoc_set "type" t1 fields))
          by (now rewrite assoc_set_other by discriminate).
        intros Hq'. inversion Hq'; subst. eauto.
    + cbn [rbind]. intros H. inversion H; subst v'. eexists. split; [reflexivity|].
      split; [now rewrite !assoc_set_keys|]. split.
      * intros t'. rewrite (@assoc_set_same "type" t1 t fields Et).
        intros Ht'. inversion Ht'; subst. eauto.
      * intros q'. rewrite assoc_set_other by discriminate. rewrite Eq. discriminate.
  - cbn [rbind]. destruct (assoc "properties" fields) as [q|] eqn:Eq.
    + destruct (if truthy (Some q) then walk q else Ok q) as [q1|e] eqn:EW;
        cbn [rbind]; [|discriminate].
      intros H. inversion H; subst v'. eexists. split; [reflexivity|].
      split; [now rewrite !assoc_set_keys|]. split.
      * intros t'. rewrite assoc_set_other by discriminate. rewrite Et. discriminate.
      * intros q'. rewrite (@assoc_set_same "properties" q1 q fields Eq).
        intros Hq'. inversion Hq'; subst. eauto.
    + cbn [rbind]. intros H. inversion H; subst v'. exists fields.
      split; [reflexivity|]. split; [reflexivity|]. split.
      * intros t'. rewrite Et. discriminate.
      * intros q'. rewrite Eq. discriminate.
Qed.

Lemma transformProperties_step_other (walk : json -> result json) (v : json) :
  match v with JNull | JObj _ => False | _ => True end ->
  transformProperties_step walk v = Ok v.
Proof. destruct v; intros H; try reflexivity; destruct H. Qed.

Lemma transformProperties_step_idempotent (v v' : json) :
  (forall q q', walked (JArr [v]) q ->
                transformProperties q = Ok q' -> transformProperties q' = Ok q') ->
  transformProperties_step transformProperties v = Ok v' ->
  transformProperties_step transformProperties v' = Ok v'.
Proof.
  intros IH. destruct v as [| | | | |fields];
    try (intros H; inversion H; subst; reflexivity); try discriminate.
  intros H. apply transformProperties_step_result in H.
  destruct H as [fields' [-> [_ [Ht Hq]]]].
  apply transformProperties_step_fixed.
  - intros t' Ht'. destruct (Ht t' Ht') as [t [_ ET]].
    now apply transformProperties_type_idempotent in ET.
  - intros q' Hq'. destruct (Hq q' Hq') as [q [Eq EW]].
    destruct (truthy (Some q)) eqn:Tq.
    + rewrite (transformProperties_truthy _ EW), Tq.
      apply (IH q q'); [|exact EW].
      exists (JObj fields), fields. split; [now left|]. auto.
    + inversion EW; subst. now rewrite Tq.
Qed.

(** X15.  The walk of [transformTool] is idempotent: walking its own
    result succeeds and changes nothing more. *)
Theorem transformProperties_idempotent :
  forall props props' : json,
    transformProperties props = Ok props' ->
    transformProperties props' = Ok props'.
Proof.
  induction props as [props IH] using walked_induction.
  intros props'. rewrite (transformProperties_eq props).
  destruct props as [| | | |items|fields];
    try (intros H; inversion H; subst; reflexivity).
  - destruct (map_result _ items) as [items'|e] eqn:E; cbn [rbind]; [|discriminate].
    intros H. inversion H; subst props'. clear H.
    rewrite transformProperties_eq.
    assert (E' : map_result (transformProperties_step transformProperties) items'
                 = Ok items').
    { apply map_result_Forall2. apply map_result_Forall2 in E.
      apply (Forall2_refl_from E). intros v v' Hin Hv.
      apply (transformProperties_step_idempotent (v := v)); [|exact Hv].
      intros q q' [w [fs [[Hw|[]] [-> Hq]]]] Hqq. subst v.
      apply (IH q); [|exact Hqq].
      exists (JObj fs), fs. split; [exact Hin|]. auto. }
    now rewrite E'.
  - destruct (map_result _ fields) as [fields'|e] eqn:E; cbn [rbind]; [|discriminate].
    intros H. inversion H; subst props'. clear H.
    rewrite transformProperties_eq.
    match goal with |- (try! _ <- map_result ?F _; _) = _ =>
      assert (E' : map_result F fields' = Ok fields') end.
    { apply map_result_Forall2. apply map_result_Forall2 in E.
      apply (Forall2_refl_from E). intros [k v] [k' v'] Hin Hv.
      cbn [fst snd] in *.
      destruct (transformProperties_step transformProperties v) as [v1|e] eqn:Es;
        cbn [rbind] in Hv; [|discriminate].
      inversion Hv; subst k' v'. clear Hv.
      rewrite (transformProperties_step_idempotent (v := v) (v' := v1)); [reflexivity| |exact Es].
      intros q q' [w [fs [[Hw|[]] [-> Hq]]]] Hqq. subst v.
      apply (IH q); [|exact Hqq].
      exists (JObj fs), fs. split; [now exists k|]. auto. }
    now rewrite E'.
Qed.

Lemma map_result_fixed {A} (f : A -> result A) (xs : list A) :
  (forall x, In x xs -> f x = Ok x) -> map_result f xs = Ok xs.
Proof.
  induction xs as [|x xs IH]; intros H; [reflexivity|].
  cbn [map_result]. rewrite (H x (or_introl eq_refl)). cbn [rbind].
  rewrite IH; [reflexivity|]. intros y Hy. apply H. now right.
Qed.

Lemma transformProperties_type_falsy (t : json) :
  truthy (Some t) = false -> transformProperties_type t = Ok t.
Proof. unfold transformProperties_type. now intros ->. Qed.

Lemma truthy_false_cases (o : option json) :
  truthy o = false -> forall t, o = Some t -> truthy (Some t) = false.
Proof. intros H t ->. exact H. Qed.

(** X16.  The walk leaves alone every declaration in which no enumerated
    value has a truthy [type] or a truthy [properties] (and none is
    [null]): it returns the parameters as they are.  The parameters of a
    usual schema, [{type, properties, required}], are of this kind as soon
    as no property is itself named [type] or [properties]. *)
Theorem transformProperties_inert :
  forall props : json,
    (forall v, enumerated props v -> inert v) ->
    transformProperties props = Ok props.
Proof.
  intros props H.
  assert (Hstep : forall v, enumerated props v ->
                            transformProperties_step transformProperties v = Ok v).
  { intros v Hv. specialize (H v Hv).
    destruct v as [| | | | |fields]; try reflexivity; [destruct H|].
    destruct H as [Ht Hq]. apply transformProperties_step_fixed.
    - intros t Et. apply transformProperties_type_falsy. now rewrite <- Et.
    - intros q Eq. rewrite <- Eq, Hq. reflexivity. }
  rewrite transformProperties_eq.
  destruct props as [| | | |items|fields]; try reflexivity.
  - rewrite map_result_fixed; [reflexivity|]. intros v Hv. now apply Hstep.
  - rewrite map_result_fixed; [reflexivity|]. intros [k v] Hv. cbn [fst snd].
    rewrite Hstep; [reflexivity|]. now exists k.
Qed.

Lemma blank_type (t t' : json) :
  transformProperties_type t = Ok t' -> blank t' = blank t.
Proof.
  unfold transformProperties_type. destruct (truthy (Some t)).
  - destruct t; try discriminate. intros H. now inversion H.
  - intros H. now inversion H.
Qed.

Lemma blank_assoc_set (key : string) (x y : json) (fields : list (string * json)) :
  assoc key fields = Some y ->
  blank x = blank y ->
  blank (JObj (assoc_set key x fields)) = blank (JObj fields).
Proof.
  intros Hy Hb. cbn [blank]. f_equal. revert Hy.
  induction fields as [|[k z] rest IH]; cbn [assoc assoc_set]; [discriminate|].
  destruct (String.eqb k key).
  - intros H. inversion H; subst. cbn [map fst snd]. now rewrite Hb.
  - intros H. cbn [map fst snd]. now rewrite (IH H).
Qed.

Lemma blank_step (v v' : json) :
  (forall q q', walked (JArr [v]) q ->
                transformProperties q = Ok q' -> blank q' = blank q) ->
  transformProperties_step transformProperties v = Ok v' ->
  blank v' = blank v.
Proof.
  intros IH. destruct v as [| | | | |fields];
    try (intros H; inversion H; subst; reflexivity); try discriminate.
  assert (HW : forall q q',
             assoc "properties" fields = Some q ->
             (if truthy (Some q) then transformProperties q else Ok q) = Ok q' ->
             blank q' = blank q).
  { intros q q' Eq EW. destruct (truthy (Some q)).
    - apply (IH q q'); [|exact EW].
      exists (JObj fields), fields. split; [now left|]. auto.
    - now inversion EW. }
  rewrite transformProperties_step_obj.
  destruct (assoc "type" fields) as [t|] eqn:Et.
  - destruct (transformProperties_type t) as [t1|e] eqn:ET; cbn [rbind]; [|discriminate].
    apply blank_type in ET.
    destruct (assoc "properties" fields) as [q|] eqn:Eq.
    + destruct (if truthy (Some q) then transformProperties q else Ok q) as [q1|e]
        eqn:EW; cbn [rbind]; [|discriminate].
      intros H. inversion H; subst v'.
      rewrite (@blank_assoc_set "properties" q1 q (assoc_set "type" t1 fields)).
      * exact (@blank_assoc_set "type" t1 t fields Et ET).
      * now rewrite assoc_set_other by discriminate.
      * exact (HW q q1 eq_refl EW).
    + cbn [rbind]. intros H. inversion H; subst v'.
      exact (@blank_assoc_set "type" t1 t fields Et ET).
  - cbn [rbind]. destruct (assoc "properties" fields) as [q|] eqn:Eq.
    + destruct (if truthy (Some q) then transformProperties q else Ok q) as [q1|e]
        eqn:EW; cbn [rbind]; [|discriminate].
      intros H. inversion H; subst v'.
      exact (@blank_assoc_set "properties" q1 q fields Eq (HW q q1 eq_refl EW)).
    + cbn [rbind]. intros H. now inversion H.
Qed.

(** X17.  The walk changes string values only: its result has the
    structure of its argument, with the same keys in the same order in
    every object, the same number of elements in every array, and the same
    numbers, booleans and nulls, at every depth. *)
Theorem transformProperties_changes_strings_only :
  forall props props' : json,
    transformProperties props = Ok props' ->
    blank props' = blank props.
Proof.
  induction props as [props IH] using walked_induction.
  intros props'. rewrite (transformProperties_eq props).
  destruct props as [| | | |items|fields];
    try (intros H; inversion H; subst; reflexivity).
  - destruct (map_result _ items) as [items'|e] eqn:E; cbn [rbind]; [|discriminate].
    intros H. inversion H; subst props'. clear H.
    apply map_result_Forall2 in E. cbn [blank]. f_equal.
    assert (Hall : forall v, In v items ->
                   forall v', transformProperties_step transformProperties v = Ok v' ->
                              blank v' = blank v).
    { intros v Hin v' Hv. apply (blank_step (v := v)); [|exact Hv].
      intros q q' [w [fs [[Hw|[]] [-> Hq]]]] Hqq. subst v.
      apply (IH q); [|exact Hqq].
      exists (JObj fs), fs. split; [exact Hin|]. auto. }
    clear IH. induction E as [|v v' items items' Hv _ IHE]; [reflexivity|].
    cbn [map]. f_equal.
    + apply (Hall v); [now left | exact Hv].
    + apply IHE. intros w Hw. apply Hall. now right.
  - destruct (map_result _ fields) as [fields'|e] eqn:E; cbn [rbind]; [|discriminate].
    intros H. inversion H; subst props'. clear H.
    apply map_result_Forall2 in E. cbn [blank]. f_equal.
    assert (Hall : forall k v, In (k, v) fields ->
                   forall v', transformProperties_step transformProperties v = Ok v' ->
                              blank v' = blank v).
    { intros k v Hin v' Hv. apply (blank_step (v := v)); [|exact Hv].
      intros q q' [w [fs [[Hw|[]] [-> Hq]]]] Hqq. subst v.
      apply (IH q); [|exact Hqq].
      exists (JObj fs), fs. split; [now exists k|]. auto. }
    clear IH. induction E as [|[k v] [k' v'] fields fields' Hv _ IHE]; [reflexivity|].
    cbn [map fst snd] in *.
    destruct (transformProperties_step transformProperties v) as [v1|e] eqn:Es;
      cbn [rbind] in Hv; [|discriminate].
    inversion Hv; subst k' v'. f_equal.
    + f_equal. apply (Hall k v); [now left | exact Es].
    + apply IHE. intros k2 w Hw. apply (Hall k2). now right.
Qed.

Lemma transformProperties_step_error (v : json) (e : error) :
  (forall q, walked (JArr [v]) q -> transformProperties q = Err e -> e = TypeError) ->
  transformProperties_step transformProperties v = Err e ->
  e = TypeError.
Proof.
  intros IH. destruct v as [| | | | |fields]; try discriminate.
  - intros H. now inversion H.
  - rewrite transformProperties_step_obj.
    destruct (assoc "type" fields) as [t|] eqn:Et.
    + destruct (transformProperties_type t) as [t1|e1] eqn:ET; cbn [rbind].
      * destruct (assoc "properties" fields) as [q|] eqn:Eq; cbn [rbind];
          [|discriminate].
        destruct (truthy (Some q)); cbn [rbind]; [|discriminate].
        destruct (transformProperties q) as [q1|e2] eqn:EW; cbn [rbind]; [discriminate|].
        intros H. inversion H; subst e2. apply (IH q); [|exact EW].
        exists (JObj fields), fields. split; [now left|]. auto.
      * intros H. inversion H; subst e1. unfold transformProperties_type in ET.
        destruct (truthy (Some t)); [|discriminate].
        destruct t; inversion ET; reflexivity.
    + cbn [rbind]. destruct (assoc "properties" fields) as [q|] eqn:Eq; cbn [rbind];
        [|discriminate].
      destruct (truthy (Some q)); cbn [rbind]; [|discriminate].
      destruct (transformProperties q) as [q1|e2] eqn:EW; cbn [rbind]; [discriminate|].
      intros H. inversion H; subst e2. apply (IH q); [|exact EW].
      exists (JObj fields), fields. split; [now left|]. auto.
Qed.

Lemma transformProperties_error (props : json) (e : error) :
  transformProperties props = Err e -> e = TypeError.
Proof.
  revert e. induction props as [props IH] using walked_induction.
  intros e. rewrite (transformProperties_eq props).
  destruct props as [| | | |items|fields]; try discriminate.
  - destruct (map_result _ items) as [items'|e1] eqn:E; cbn [rbind]; [discriminate|].
    intros H. inversion H; subst e1.
    apply map_result_error in E. destruct E as [v [Hin Hv]].
    apply (transformProperties_step_error (v := v)); [|exact Hv].
    intros q [w [fs [[Hw|[]] [-> Hq]]]] Hqq. subst v.
    apply (IH q); [|exact Hqq].
    exists (JObj fs), fs. split; [exact Hin|]. auto.
  - destruct (map_result _ fields) as [fields'|e1] eqn:E; cbn [rbind]; [discriminate|].
    intros H. inversion H; subst e1.
    apply map_result_error in E. destruct E as [[k v] [Hin Hv]]. cbn [fst snd] in Hv.
    destruct (transformProperties_step transformProperties v) as [v1|e2] eqn:Es;
      cbn [rbind] in Hv; [discriminate|].
    inversion Hv; subst e2.
    apply (transformProperties_step_error (v := v)); [|exact Es].
    intros q [w [fs [[Hw|[]] [-> Hq]]]] Hqq. subst v.
    apply (IH q); [|exact Hqq].
    exists (JObj fs), fs. split; [now exists k|]. auto.
Qed.

(** X18.  [transformTools] returns, exactly when every tool can be walked,
    one native tool per tool, in the same order, each with a single
    declaration carrying the name and the description of its tool and the
    walked parameters; an empty list gives an empty list.  When it throws,
    the exception is a type error. *)
Theorem transformTools_result :
  forall tools : list ToolInput.t,
    (forall natives,
        transformTools tools = Ok natives <->
        Forall2
          (fun tool native =>
             exists parameters,
               transformProperties
                 (FunctionDeclaration.parameters (ToolInput.function tool))
               = Ok parameters /\
               native = Tool.mk
                          [FunctionDeclaration.mk
                             (FunctionDeclaration.name (ToolInput.function tool))
                             (FunctionDeclaration.description (ToolInput.function tool))
                             parameters])
          tools natives) /\
    (forall e, transformTools tools = Err e -> e = TypeError).
Proof.
  intros tools. split.
  - intros natives. unfold transformTools. rewrite map_result_Forall2.
    split; intros H; induction H as [|tool native tools natives Ht _ IH];
      constructor; auto.
    + now apply transformTool_wraps.
    + destruct Ht as [parameters [Hp ->]]. unfold transformTool. now rewrite Hp.
  - intros e H. unfold transformTools in H.
    apply map_result_error in H. destruct H as [tool [_ Ht]].
    unfold transformTool in Ht.
    destruct (transformProperties _) as [parameters|e'] eqn:E; cbn [rbind] in Ht;
      [discriminate|].
    inversion Ht; subst e'. now apply transformProperties_error in E.
Qed.

(** ** The GraphQL endpoint *)

Lemma lookup_define_same {V : Type} (key : string) (v : V) (o : list (string * V)) :
  lookup key (define key v o) = Some v.
Proof.
  induction o as [|[k x] rest IH]; cbn [define lookup].
  - now rewrite String.eqb_refl.
  - destruct (String.eqb k key) eqn:E; cbn [lookup]; rewrite E; auto.
Qed.

Lemma lookup_define_other {V : Type} (key key' : string) (v : V)
    (o : list (string * V)) :
  key <> key' -> lookup key' (define key v o) = lookup key' o.
Proof.
  intros Hk. induction o as [|[k x] rest IH]; cbn [define lookup].
  - apply String.eqb_neq in Hk. now rewrite Hk.
  - destruct (String.eqb k key) eqn:E; cbn [lookup].
    + apply String.eqb_eq in E. subst k.
      apply String.eqb_neq in Hk. now rewrite Hk.
    + now rewrite IH.
Qed.

Lemma lookup_map {V W : Type} (f : V -> W) (key : string) (o : list (string * V)) :
  lookup key (map (fun kv => (fst kv, f (snd kv))) o) = option_map f (lookup key o).
Proof.
  induction o as [|[k x] rest IH]; [reflexivity|].
  cbn [map lookup fst snd]. destruct (String.eqb k key); [reflexivity | exact IH].
Qed.

Section RuntimeFacts.

Variables Runtime Adapter Cloud Initial Logger Schema Plugin : Type.
Variable createLogger : option string -> option string -> Logger.
Variable buildSchemaSync : option string -> Schema.
Variable useDeferStream : Plugin.

(** X19.  The level of the loggers of [getCommonConfig] is the value of
    the environment variable [LOG_LEVEL] when it is set and not empty,
    whatever the options say; otherwise [options.logLevel] when it is set
    and not empty; otherwise [error].  It is never empty, and the logger
    of the server and the logger put in every context have this same
    level. *)
Theorem getCommonConfig_log_level :
  forall (LOG_LEVEL : option string) (options : Options Runtime Adapter Cloud)
         (initialContext : list (string * Initial)),
    let config :=
      getCommonConfig Initial createLogger buildSchemaSync useDeferStream
        LOG_LEVEL options in
    let level := logLevel_of LOG_LEVEL options in
    CommonConfig.logging config = createLogger (Some level) (Some "Yoga GraphQL") /\
    lookup "logger" (CommonConfig.context config initialContext)
    = Some (ContextLogger (createLogger (Some level) None)) /\
    level <> "" /\
    match LOG_LEVEL with
    | Some (String c l) => level = String c l
    | _ =>
        match ServerOptions.logLevel options with
        | Some (String c l) => level = String c l
        | _ => level = "error"
        end
    end.
Proof.
  intros LOG_LEVEL options initialContext config level. subst config level.
  split; [reflexivity|]. split.
  - cbn [getCommonConfig CommonConfig.context]. unfold createContext.
    apply lookup_define_same.
  - unfold logLevel_of, or_else.
    destruct LOG_LEVEL as [[|c l]|];
      destruct (ServerOptions.logLevel options) as [[|c' l']|];
      cbn [String.eqb]; split; try reflexivity; discriminate.
Qed.

(** X20.  In the context that [getCommonConfig] builds for a request, the
    fields [_copilotkit], [properties] and [logger] are always the options
    of the endpoint, their [properties] (an empty object when the options
    have none) and the context logger, also when the initial context has
    fields of these names; every other field is the one of the initial
    context, and no other field appears. *)
Theorem getCommonConfig_context :
  forall (LOG_LEVEL : option string) (options : Options Runtime Adapter Cloud)
         (initialContext : list (string * Initial)),
    let context :=
      CommonConfig.context
        (getCommonConfig Initial createLogger buildSchemaSync useDeferStream
           LOG_LEVEL options)
        initialContext in
    lookup "_copilotkit" context = Some (CopilotKit options) /\
    lookup "properties" context
    = Some (Properties
              (match ServerOptions.properties options with
               | Some p => p
               | None => []
               end)) /\
    lookup "logger" context
    = Some (ContextLogger (createLogger (Some (logLevel_of LOG_LEVEL options)) None)) /\
    forall key,
      key <> "_copilotkit" -> key <> "properties" -> key <> "logger" ->
      lookup key context = option_map FromInitial (lookup key initialContext).
Proof.
  intros LOG_LEVEL options initialContext context. subst context.
  cbn [getCommonConfig CommonConfig.context]. unfold createContext.
  split; [|split; [|split]].
  - rewrite !lookup_define_other by discriminate. apply lookup_define_same.
  - rewrite lookup_define_other by discriminate. apply lookup_define_same.
  - apply lookup_define_same.
  - intros key H1 H2 H3.
    rewrite !lookup_define_other by congruence.
    apply lookup_map.
Qed.

End RuntimeFacts.

(** ** Instances of the further conditional statements *)

Lemma transformMessages_keeps_recognized_in_order_witness :
  transformMessages Host.parse system_tool_user
  = Ok [Content.mk "user" [text (system_prefix ++ "S")%string];
        Content.mk "user" [text "Hi"]]
  /\ kept_in_order (transformMessage Host.parse) system_tool_user
       [Content.mk "user" [text (system_prefix ++ "S")%string];
        Content.mk "user" [text "Hi"]]
  /\ (forall contents,
         kept_in_order (transformMessage Host.parse) system_tool_user contents ->
         contents = [Content.mk "user" [text (system_prefix ++ "S")%string];
                     Content.mk "user" [text "Hi"]]).
Proof.
  destruct (transformMessages_keeps_recognized_in_order Host.parse system_tool_user)
    as [H _].
  split; [reflexivity|]. split.
  - apply H. reflexivity.
  - intros contents Hk. apply H in Hk. vm_compute in Hk.
    injection Hk as <-. reflexivity.
Defined.

Lemma start_tool_calls_then_end_witness :
  Forall (fun call => plain_keys (ModelFunctionCall.args call) = true) [lookup_call]
  /\ newlines_replaced (JObj [("q", JStr "x\\ny")])
       (JObj [("q", JStr ("x" ++ newline ++ "y"))])
  /\ ReadableStream
       (start Host.stringify
          (StreamResult.mk (map Ok ["Hel"; "lo"]) (Ok (Some [lookup_call]))))
     = Controller.mk
         [ChunkRecord
            (ChatCompletionChunk.mk [Choice.mk (Delta.mk "assistant" "Hel" None)]);
          ChunkRecord
            (ChatCompletionChunk.mk [Choice.mk (Delta.mk "assistant" "lo" None)]);
          ChunkRecord
            (ChatCompletionChunk.mk
               [Choice.mk
                  (Delta.mk "assistant" ""
                     (Some [ToolCall.mk 0 "0"
                              (ToolCallFunction.mk "lookup"
                                 ("{" ++ Host.quoted "q" ++ ":"
                                      ++ Host.quote ++ "x\ny" ++ Host.quote ++ "}"))]))]);
          EndRecord]
         Closed.
Proof.
  assert (Hp : Forall (fun call => plain_keys (ModelFunctionCall.args call) = true)
                 [lookup_call]) by (repeat constructor).
  assert (Hrep : newlines_replaced (JObj [("q", JStr "x\\ny")])
                   (JObj [("q", JStr ("x" ++ newline ++ "y"))])).
  { constructor. constructor; [|constructor]. split; [reflexivity|].
    cbn [snd]. constructor.
    apply (@replaced_leftmost escaped_newline newline "x\\ny" "x" "y" "y").
    - reflexivity.
    - intros pre' post' H. destruct pre'; [discriminate H | simpl; lia].
    - apply replaced_none. intros pre post H. unfold occurs_at in H.
      destruct pre as [|c pre]; [discriminate H|].
      simpl in H. injection H as _ H. destruct pre; discriminate H. }
  split; [exact Hp|]. split; [exact Hrep|].
  destruct (start_tool_calls_then_end Host.stringify ["Hel"; "lo"] (Some [lookup_call]) Hp)
    as [Hs [[tool_calls [Hq [Hlen Hnth]]] _]].
  destruct (Hnth 0 lookup_call eq_refl) as [args' [Hr Hentry]].
  rewrite (newlines_replaced_functional Hr Hrep) in Hentry.
  destruct tool_calls as [|tc [|tc' rest]]; try discriminate Hlen.
  cbn [nth_error] in Hentry. injection Hentry as ->.
  destruct (ReadableStream _) as [queue state].
  cbn [Controller.state Controller.queue] in Hs, Hq. rewrite Hs, Hq. reflexivity.
Defined.

Lemma replaceNewlinesInObject_idempotent_witness :
  plain_keys (JObj [("q", JArr [JStr "x\\ny"; JNum 1])]) = true
  /\ exists v',
       replaceNewlinesInObject (JObj [("q", JArr [JStr "x\\ny"; JNum 1])]) = Ok v'
       /\ newlines_replaced (JObj [("q", JArr [JStr "x\\ny"; JNum 1])]) v'
       /\ replaceNewlinesInObject v' = Ok v'.
Proof.
  split; [reflexivity|].
  exact (proj1 (proj2 (proj2
           (replaceNewlinesInObject_idempotent (JObj [("q", JArr [JStr "x\\ny"; JNum 1])]))))
           eq_refl).
Defined.


Lemma replaceNewlinesInObject_string_witness :
  occurs_at escaped_newline "a\\nb\\nc" "a" "b\\nc"
  /\ leftmost escaped_newline "a\\nb\\nc" "a"
  /\ replaceNewlinesInObject (JStr "a\\nb\\nc")
     = Ok (JStr ("a" ++ newline ++ "b" ++ newline ++ "c")%string).
Proof.
  assert (Hl : leftmost escaped_newline "a\\nb\\nc" "a").
  { intros pre' post' H. destruct pre' as [|c pre'];
      [discriminate H | simpl; lia]. }
  split; [reflexivity|]. split; [exact Hl|].
  destruct (replaceNewlinesInObject_string (s := "a\\nb\\nc") (pre := "a")
              (post := "b\\nc") eq_refl Hl) as [t [Ht Hs]].
  rewrite Hs. inversion Ht. reflexivity.
Defined.

Lemma transformMessage_one_part_witness :
  transformMessage Host.parse (msg "system" "S")
  = Ok (Content.mk "user" [text (system_prefix ++ "S")%string])
  /\ exists part,
       [text (system_prefix ++ "S")%string] = [part] /\
       match part with
       | text _ => "user" = "user" \/ "user" = "model"
       | functionCall _ _ => "user" = "model"
       | functionResponse _ _ _ => "user" = "function"
       end.
Proof.
  split; [reflexivity|].
  exact (transformMessage_one_part Host.parse (msg "system" "S") eq_refl).
Defined.

Lemma transformMessages_only_syntax_error_witness :
  transformMessages Host.parse [msg "tool" "x"; bad_call] = Err SyntaxError
  /\ exists m fc,
       In m [msg "tool" "x"; bad_call] /\ Message.role m = "assistant" /\
       Message.function_call m = Some fc /\
       JSON_parse_arg Host.parse (FunctionCall.arguments fc) = Err SyntaxError.
Proof.
  split; [reflexivity|].
  exact (proj2 (transformMessages_only_syntax_error Host.parse
                  [msg "tool" "x"; bad_call] eq_refl)).
Defined.

Lemma transformMessages_without_function_call_witness :
  (forall m, In m system_tool_user -> Message.function_call m = None)
  /\ exists contents,
       transformMessages Host.parse system_tool_user = Ok contents /\
       List.length contents = 2.
Proof.
  assert (H : forall m, In m system_tool_user -> Message.function_call m = None).
  { intros m [<-|[<-|[<-|[]]]]; reflexivity. }
  split; [exact H|].
  exact (transformMessages_without_function_call Host.parse system_tool_user H).
Defined.

Lemma getResponse_empty_messages_witness :
  transformTools [lookup_tool]
  = Ok [Tool.mk [FunctionDeclaration.mk "lookup" "Look something up" object_schema]]
  /\ getResponse Host.parse Host.stringify (demo_model "gemini-pro" no_output)
       (Some [lookup_tool]) (World.mk [] [])
     = (World.mk []
          [StartChat
             (StartChatParams.mk [Content.mk "user" [text ""]] None
                [Tool.mk
                   [FunctionDeclaration.mk "lookup" "Look something up" object_schema]])],
        Err TypeError).
Proof.
  split; [reflexivity|].
  exact (getResponse_empty_messages Host.parse Host.stringify
           (demo_model "gemini-pro" no_output) (Some [lookup_tool]) [] eq_refl).
Defined.

Lemma getResponse_fails_before_session_witness :
  transformMessages Host.parse (slice_0_m1 [bad_call; msg "user" "Hi"]) = Err SyntaxError
  /\ getResponse Host.parse Host.stringify (demo_model "gemini-pro" no_output) None
       (World.mk [bad_call; msg "user" "Hi"] [])
     = (World.mk [bad_call; msg "user" "Hi"] [], Err SyntaxError)
  /\ transformTools [null_tool] = Err TypeError
  /\ getResponse Host.parse Host.stringify (demo_model "gemini-pro" no_output)
       (Some [null_tool]) (World.mk system_user [])
     = (World.mk [msg "user" "Hi"] [], Err TypeError).
Proof.
  split; [reflexivity|]. split.
  - exact (proj1 (getResponse_fails_before_session Host.parse Host.stringify
                    (demo_model "gemini-pro" no_output) None
                    (World.mk [bad_call; msg "user" "Hi"] []) SyntaxError) eq_refl).
  - split; [reflexivity|].
    exact (proj2 (getResponse_fails_before_session Host.parse Host.stringify
                    (demo_model "gemini-pro" no_output) (Some [null_tool])
                    (World.mk system_user []) TypeError) _ eq_refl eq_refl).
Defined.

Lemma getResponse_success_witness :
  transformMessages Host.parse [msg "system" " S "; msg "assistant" "x\\ny"]
  = Ok [Content.mk "user" [text (system_prefix ++ " S ")%string];
        Content.mk "model" [text ("x" ++ newline ++ "y")%string]]
  /\ transformMessage Host.parse (msg "user" "Hi") = Ok (Content.mk "user" [text "Hi"])
  /\ user_turn_first
       (StartChatParams.mk
          [Content.mk "user" [text (system_prefix ++ " S ")%string];
           Content.mk "model" [text ("x" ++ newline ++ "y")%string]]
          (Some (Content.mk "user" [text "S"]))
          [])
     = Ok tt
  /\ getResponse_checked Host.parse Host.stringify user_turn_first
       (demo_model "gemini-1.5-pro-latest" no_output) None
       (World.mk ([msg "system" " S "; msg "assistant" "x\\ny"] ++ [msg "user" "Hi"]) [])
     = (World.mk [msg "assistant" "x\\ny"; msg "user" "Hi"]
          [StartChat
             (StartChatParams.mk
                [Content.mk "user" [text (system_prefix ++ " S ")%string];
                 Content.mk "model" [text ("x" ++ newline ++ "y")%string]]
                (Some (Content.mk "user" [text "S"]))
                []);
           SendMessageStream [text "Hi"]],
        Ok (CopilotKitResponse.mk (ReadableStream (start Host.stringify no_output)))).
Proof.
  split; [reflexivity|]. split; [reflexivity|]. split; [reflexivity|].
  exact (getResponse_success Host.parse Host.stringify user_turn_first
           (demo_model "gemini-1.5-pro-latest" no_output) None
           [msg "system" " S "; msg "assistant" "x\\ny"] (msg "user" "Hi") []
           eq_refl eq_refl eq_refl eq_refl eq_refl).
Defined.

Lemma transformProperties_idempotent_witness :
  transformProperties property_map = Ok property_map_upper
  /\ transformProperties property_map_upper = Ok property_map_upper.
Proof.
  split; [reflexivity|].
  exact (transformProperties_idempotent property_map eq_refl).
Defined.

Lemma transformProperties_inert_witness :
  (forall v, enumerated object_schema v -> inert v)
  /\ transformProperties object_schema = Ok object_schema.
Proof.
  assert (H : forall v, enumerated object_schema v -> inert v).
  { intros v [k [H|[H|[H|[]]]]]; inversion H; subst; cbn; auto. }
  split; [exact H|].
  exact (transformProperties_inert object_schema H).
Defined.

Lemma transformProperties_changes_strings_only_witness :
  transformProperties property_map = Ok property_map_upper
  /\ blank property_map_upper = blank property_map.
Proof.
  split; [reflexivity|].
  exact (transformProperties_changes_strings_only property_map eq_refl).
Defined.


(** ** Function messages *)

Section FunctionMessageFacts.

Variable JSON_parse : string -> option json.

(** X21.  A function message is always transcoded, into one function
    response carrying the name of the message twice.  Its content is
    parsed on a best-effort basis: an empty content gives the empty
    string, without [JSON.parse] being consulted; a content that
    [JSON.parse] accepts gives the parsed value; any other content is
    passed on as the string it is. *)
Theorem transformMessage_function_response :
  forall m : Message.t,
    Message.role m = "function" ->
    exists v,
      transformMessage JSON_parse m
      = Ok (Content.mk "function"
              [functionResponse (Message.name m) (Message.name m) v]) /\
      match Message.content m with
      | EmptyString => v = JStr ""
      | String _ _ =>
          match JSON_parse (Message.content m) with
          | Some parsed => v = parsed
          | None => v = JStr (Message.content m)
          end
      end.
Proof.
  intros m Hr. exists (tryParseJson JSON_parse (Message.content m)). split.
  - unfold transformMessage. rewrite Hr. reflexivity.
  - unfold tryParseJson. destruct (Message.content m) as [|c s]; [reflexivity|].
    cbn [String.eqb]. destruct (JSON_parse (String c s)); reflexivity.
Qed.

End FunctionMessageFacts.

Lemma transformMessage_function_response_witness :
  Message.role (Message.mk "function" "plain" (Some "f") None) = "function"
  /\ transformMessage Host.parse (Message.mk "function" "plain" (Some "f") None)
     = Ok (Content.mk "function" [functionResponse (Some "f") (Some "f") (JStr "plain")]).
Proof.
  split; [reflexivity|].
  destruct (transformMessage_function_response Host.parse
              (Message.mk "function" "plain" (Some "f") None) eq_refl) as [v [Hv Hc]].
  cbn in Hc. subst v. exact Hv.
Defined.

(** The four handlers of the endpoint are one server, created on the
    endpoint of the options with the common configuration. *)
Lemma endpoint_one_server
    (Runtime Adapter Cloud Initial Logger Schema Plugin Yoga : Type)
    (createLogger : option string -> option string -> Logger)
    (buildSchemaSync : option string -> Schema) (useDeferStream : Plugin)
    (createYoga :
       YogaOptions.t (Config Runtime Adapter Cloud Initial Logger Schema Plugin) -> Yoga)
    (LOG_LEVEL : option string) (options : Options Runtime Adapter Cloud) :
  let endpoint :=
    copilotRuntimeNextJSAppRouterEndpoint createLogger buildSchemaSync useDeferStream
      createYoga LOG_LEVEL options in
  let yoga :=
    createYoga
      (YogaOptions.mk
         (getCommonConfig Initial createLogger buildSchemaSync useDeferStream
            LOG_LEVEL options)
         (ServerOptions.endpoint options)) in
  Endpoint.handleRequest endpoint = yoga /\ Endpoint.GET endpoint = yoga /\
  Endpoint.POST endpoint = yoga /\ Endpoint.OPTIONS endpoint = yoga.
Proof. repeat split. Qed.
